(** * pycommand: option tables, usage text, argument matching and dispatch

    A shallow embedding of [pycommand/pycommand.py] (class [CommandBase],
    class [dictobject], [run_and_exit]) together with the standard-library
    tokenizer [getopt.getopt] it calls, and the properties of the
    specification proved or refuted against it. *)

From Stdlib Require Import String Ascii ZArith Lia Bool.
From stdpp Require Import gmap strings list fin_maps.

Local Open Scope Z_scope.
Local Open Scope nat_scope.

(** ** Python values and effects *)

(** The Python values that flags, exit codes and command results take. *)
Inductive PyVal : Type :=
| PyNone
| PyBool (b : bool)
| PyInt (z : Z)
| PyStr (s : string)
| PyObj (repr : string).

(** [getopt.GetoptError]: [str(err)] is [msg]. *)
Record GetoptError : Type := mkGetoptError { msg : string; opt : string }.

(** The exceptions the module raises or lets through. *)
Inductive PyExn : Type :=
| CommandExit (err : Z)
| OptionError (message : string)
| AttributeError (message : string)
| IndexError
| SystemExit (code : PyVal).

Inductive Outcome (A : Type) : Type :=
| Return (a : A)
| Raise (e : PyExn).
Arguments Return {A} a.
Arguments Raise {A} e.

(** A computation prints lines to standard output and then returns or
    raises. *)
Definition Eff (A : Type) : Type := (list string * Outcome A)%type.

Definition ret {A} (a : A) : Eff A := ([], Return a).
Definition raise {A} (e : PyExn) : Eff A := ([], Raise e).
Definition print (line : string) : Eff unit := ([line], Return tt).
Definition bind {A B} (m : Eff A) (k : A -> Eff B) : Eff B :=
  match m with
  | (out, Return a) => let (out', r) := k a in (out ++ out', r)
  | (out, Raise e) => (out, Raise e)
  end.
Definition lift {A} (o : Outcome A) : Eff A := ([], o).

Notation "x <- m ;; k" := (bind m (fun x => k))
  (at level 100, m at next level, right associativity).
Notation "m ;;; k" := (bind m (fun _ => k))
  (at level 100, right associativity).

(** ** Python string operations *)

Module Str.

(** [s.startswith(p)] *)
Definition startswith (p s : string) : bool := String.prefix p s.

(** [s[n:]] *)
Fixpoint drop (n : nat) (s : string) : string :=
  match n, s with
  | O, _ => s
  | S _, EmptyString => EmptyString
  | S n', String _ s' => drop n' s'
  end.

(** [s.endswith(c)] for a one-character [c] *)
Fixpoint endswith (c : ascii) (s : string) : bool :=
  match s with
  | EmptyString => false
  | String a EmptyString => Ascii.eqb a c
  | String _ s' => endswith c s'
  end.

(** [s[:-1]] *)
Fixpoint init (s : string) : string :=
  match s with
  | EmptyString => EmptyString
  | String _ EmptyString => EmptyString
  | String a s' => String a (init s')
  end.

(** [s.index(c)] split: [Some (s[:i], s[i+1:])] at the first [c],
    [None] when [index] raises [ValueError]. *)
Fixpoint split_at (c : ascii) (s : string) : option (string * string) :=
  match s with
  | EmptyString => None
  | String a s' =>
      if Ascii.eqb a c then Some (EmptyString, s')
      else match split_at c s' with
           | Some (l, r) => Some (String a l, r)
           | None => None
           end
  end.

(** A run of [n] spaces. *)
Fixpoint spaces (n : nat) : string :=
  match n with
  | O => EmptyString
  | S n' => String " " (spaces n')
  end.

(** ['{s:{width}}'.format(...)] on a string: left-justified, filled with
    spaces up to [width], unchanged when already that long. *)
Definition ljust (s : string) (width : nat) : string :=
  s +:+ spaces (width - String.length s).

(** Truth value of a string: non-empty. *)
Definition truthy (s : string) : bool :=
  match s with EmptyString => false | _ => true end.

End Str.

(** ** The tokenizer: Python's [getopt.getopt]

    The tokenizer is the external collaborator of the matcher; the
    definitions below follow the standard library's [getopt.py] function
    by function. *)

Module getopt.

Definition tokens : Type := list (string * string).
Definition result : Type := (GetoptError + (tokens * list string))%type.

(** [short_has_arg(opt, shortopts)]: the first position holding [opt]
    (never a colon) decides, by whether a colon follows it. *)
Fixpoint short_has_arg (opt : ascii) (shortopts : string)
  : GetoptError + bool :=
  match shortopts with
  | EmptyString =>
      inl (mkGetoptError ("option -" +:+ String opt "" +:+ " not recognized")
                         (String opt ""))
  | String c rest =>
      if Ascii.eqb opt c && negb (Ascii.eqb c ":")
      then inr (Str.startswith ":" rest)
      else short_has_arg opt rest
  end.

(** [do_shorts(opts, optstring, shortopts, args)] *)
Fixpoint do_shorts (opts : tokens) (optstring shortopts : string)
         (args : list string) : result :=
  match optstring with
  | EmptyString => inr (opts, args)
  | String opt optstring =>
      match short_has_arg opt shortopts with
      | inl e => inl e
      | inr true =>
          match optstring, args with
          | EmptyString, [] =>
              inl (mkGetoptError
                     ("option -" +:+ String opt "" +:+ " requires argument")
                     (String opt ""))
          | EmptyString, optarg :: args =>
              inr (opts ++ [("-" +:+ String opt "", optarg)], args)
          | optarg, _ =>
              inr (opts ++ [("-" +:+ String opt "", optarg)], args)
          end
      | inr false =>
          do_shorts (opts ++ [("-" +:+ String opt "", "")])
                    optstring shortopts args
      end
  end.

(** [long_has_args(opt, longopts)]: exact match first, then a unique
    prefix. *)
Definition long_has_args (opt : string) (longopts : list string)
  : GetoptError + (bool * string) :=
  let possibilities := List.filter (Str.startswith opt) longopts in
  match possibilities with
  | [] => inl (mkGetoptError ("option --" +:+ opt +:+ " not recognized") opt)
  | unique_match :: others =>
      if existsb (String.eqb opt) possibilities then inr (false, opt)
      else if existsb (String.eqb (opt +:+ "=")) possibilities
           then inr (true, opt)
      else match others with
           | _ :: _ =>
               inl (mkGetoptError
                      ("option --" +:+ opt +:+ " not a unique prefix") opt)
           | [] =>
               let has_arg := Str.endswith "=" unique_match in
               inr (has_arg,
                    if has_arg then Str.init unique_match else unique_match)
           end
  end.

(** [do_longs(opts, opt, longopts, args)] *)
Definition do_longs (opts : tokens) (opt : string) (longopts : list string)
           (args : list string) : result :=
  let '(opt, optarg) :=
    match Str.split_at "=" opt with
    | None => (opt, None)
    | Some (l, r) => (l, Some r)
    end in
  match long_has_args opt longopts with
  | inl e => inl e
  | inr (true, opt) =>
      match optarg, args with
      | None, [] =>
          inl (mkGetoptError
                 ("option --" +:+ opt +:+ " requires argument") opt)
      | None, optarg :: args => inr (opts ++ [("--" +:+ opt, optarg)], args)
      | Some optarg, _ => inr (opts ++ [("--" +:+ opt, optarg)], args)
      end
  | inr (false, opt) =>
      match optarg with
      | Some _ =>
          inl (mkGetoptError
                 ("option --" +:+ opt +:+ " must not have an argument") opt)
      | None => inr (opts ++ [("--" +:+ opt, "")], args)
      end
  end.

(** The loop condition [args and args[0].startswith('-') and
    args[0] != '-'], on the head of [args]. *)
Definition is_option_token (a : string) : bool :=
  Str.startswith "-" a && negb (String.eqb a "-").

(** The [while] loop of [getopt]; an iteration consumes at least one
    argument, so [fuel] bounds the number of iterations and [None] is
    only produced when it is too small. *)
Fixpoint loop (fuel : nat) (opts : tokens) (args : list string)
         (shortopts : string) (longopts : list string) : option result :=
  match args with
  | [] => Some (inr (opts, args))
  | a :: rest =>
      if is_option_token a then
        if String.eqb a "--" then Some (inr (opts, rest))
        else
          match fuel with
          | O => None
          | S fuel' =>
              match (if Str.startswith "--" a
                     then do_longs opts (Str.drop 2 a) longopts rest
                     else do_shorts opts (Str.drop 1 a) shortopts rest) with
              | inl e => Some (inl e)
              | inr (opts', args') => loop fuel' opts' args' shortopts longopts
              end
          end
      else Some (inr (opts, args))
  end.

(** [getopt(args, shortopts, longopts)]; the fuel [length args] always
    suffices ([getopt_loop_terminates]), so the last branch is never
    taken. *)
Definition getopt (args : list string) (shortopts : string)
           (longopts : list string) : result :=
  match loop (length args) [] args shortopts longopts with
  | Some r => r
  | None => inr ([], args)
  end.

End getopt.

(** ** Option tables *)

(** The value of one option declaration, the tuple [val] of the source:
    [short] is [val[0]] (the empty string when there is no short letter),
    [argument] is [val[1]] ([None] for [False]/[None], otherwise the
    placeholder naming the expected value) and [desc] is [val[2]]. *)
Record OptVal : Type := mkOpt {
  short : string;
  argument : option string;
  desc : string
}.

(** Truth value of [val[1]]: a non-empty placeholder. *)
Definition takes_arg (val : OptVal) : bool :=
  match argument val with
  | Some a => Str.truthy a
  | None => false
  end.

(** [val[1]] where the source uses it as a string. *)
Definition argname (val : OptVal) : string :=
  match argument val with
  | Some a => a
  | None => EmptyString
  end.

(** [collections.OrderedDict]: keys in first-insertion order, a repeated
    key keeps its place and takes the later value. *)
Module OrderedDict.

Definition t : Type := list (string * OptVal).

Fixpoint set (k : string) (v : OptVal) (d : t) : t :=
  match d with
  | [] => [(k, v)]
  | (k', v') :: d' =>
      if String.eqb k' k then (k, v) :: d' else (k', v') :: set k v d'
  end.

(** [OrderedDict(pairs)] *)
Definition make (pairs : list (string * OptVal)) : t :=
  fold_left (fun d kv => set (fst kv) (snd kv) d) pairs [].

(** [d.items()] *)
Definition items (d : t) : list (string * OptVal) := d.

(** [d.keys()] *)
Definition keys (d : t) : list string := map fst d.

End OrderedDict.

(** ** Flag maps *)

(** [self.flags] is a plain [dict] while the constructor runs and is
    replaced by a [dictobject] at its end. *)
Inductive FlagMap : Type :=
| PlainDict (d : gmap string PyVal)
| DictObject (d : gmap string PyVal).

Definition entries (f : FlagMap) : gmap string PyVal :=
  match f with PlainDict d | DictObject d => d end.

Module dictobject.

(** [dictobject.__getattr__(self, name)], the hook Python calls for a
    name that the [dict] type does not itself provide. *)
Definition __getattr__ (self : gmap string PyVal) (name : string)
  : Outcome PyVal :=
  match self !! name with
  | Some v => Return v
  | None => Raise (OptionError ("Option '" +:+ name +:+ "' is not defined"))
  end.

End dictobject.

(** The public methods the [dict] type has in every version of Python.
    Normal attribute lookup finds them, on a plain [dict] and on a
    [dictobject] alike, before [__getattr__] is consulted. The type
    provides further names (its special methods, and methods that differ
    between versions), which is why the normal lookup is a parameter of
    [getattr] below. *)
Definition dict_methods : list string :=
  ["clear"; "copy"; "fromkeys"; "get"; "items"; "keys"; "pop"; "popitem";
   "setdefault"; "update"; "values"].

(** A normal lookup that finds exactly those methods. *)
Definition dict_lookup (name : string) : option PyVal :=
  if existsb (String.eqb name) dict_methods
  then Some (PyObj ("built-in method " +:+ name))
  else None.

(** [flags.name] on a flag map. Python first looks the name up on the
    object and its type, [provided name]; only when that finds nothing
    does it call the [__getattr__] hook of a [dictobject], or raise
    [AttributeError] on a plain [dict], which has no hook. *)
Definition getattr (provided : string -> option PyVal) (f : FlagMap)
           (name : string) : Outcome PyVal :=
  match provided name with
  | Some attribute => Return attribute
  | None =>
      match f with
      | DictObject d => dictobject.__getattr__ d name
      | PlainDict _ =>
          Raise (AttributeError
                   ("'dict' object has no attribute '" +:+ name +:+ "'"))
      end
  end.

(** ** Commands *)

Definition nl : string := String "010"%char EmptyString.

Module CommandBase.

(** The class attributes a (sub)command declares. *)
Record Class (R : Type) : Type := mkClass {
  usagestr : string;
  description : string;
  optionList : list (string * OptVal);
  usageTextExtra : string;
  commands : gmap string (list string -> Eff R)
}.
Arguments mkClass {R}.
Arguments usagestr {R}.
Arguments description {R}.
Arguments optionList {R}.
Arguments usageTextExtra {R}.
Arguments commands {R}.

(** The instance variables set by [__init__]; [self_optionList] is the
    instance's [optionList], the [OrderedDict] built from the class
    attribute. *)
Record t (R : Type) : Type := mkCommand {
  class : Class R;
  error : option GetoptError;
  flags : FlagMap;
  args : list string;
  parentFlags : gmap string PyVal;
  usage : string;
  self_optionList : OrderedDict.t
}.
Arguments mkCommand {R}.
Arguments class {R}.
Arguments error {R}.
Arguments flags {R}.
Arguments args {R}.
Arguments parentFlags {R}.
Arguments usage {R}.
Arguments self_optionList {R}.

(** *** Padding (source lines 122-128) *)

(** The body of the first loop: the width [optlen] of one option. *)
Definition optlen (flag : string) (val : OptVal) : nat :=
  let optlen := String.length flag + 2 in
  let optlen := optlen + (if Str.truthy (short val) then 4 else 0) in
  let optlen :=
    optlen + (if Str.truthy (short val) && takes_arg val
              then String.length (argname val) + 1 else 0) in
  let optlen :=
    optlen + (if takes_arg val then String.length (argname val) + 1 else 0) in
  optlen.

Definition padding_step (padding : nat) (item : string * OptVal) : nat :=
  let optlen := optlen (fst item) (snd item) in
  if padding <? optlen then optlen else padding.

Definition compute_padding (items : list (string * OptVal)) : nat :=
  fold_left padding_step items 0.

(** *** Usage lines and tokenizer specs (source lines 130-156) *)

(** The text of one option before justification: [optline]. The source
    keeps [flagstring_short] across iterations, but reads it only when
    [val[0]] is non-empty, and then the same iteration has assigned it. *)
Definition optline (flag : string) (val : OptVal) : string :=
  let flagstring_long :=
    if takes_arg val then flag +:+ "=" +:+ argname val else flag in
  let flagstring_short :=
    if takes_arg val then short val +:+ " " +:+ argname val else short val in
  if Str.truthy (short val)
  then "-" +:+ flagstring_short +:+ ", --" +:+ flagstring_long
  else "--" +:+ flagstring_long.

(** ['{options:{padding}}  {desc}\n'.format(...)] *)
Definition helpline (padding : nat) (flag : string) (val : OptVal) : string :=
  Str.ljust (optline flag val) padding +:+ "  " +:+ desc val +:+ nl.

(** The variables the second loop updates. *)
Record Decl : Type := mkDecl {
  longopts : list string;
  shortopts : string;
  decl_flags : gmap string PyVal;
  opthelp : string
}.

Definition declare_step (padding : nat) (st : Decl) (item : string * OptVal)
  : Decl :=
  let '(flag, val) := item in
  let spec := if takes_arg val then flag +:+ "=" else flag in
  {| longopts := longopts st ++ [spec];
     decl_flags := <[flag := PyNone]> (decl_flags st);
     shortopts :=
       if Str.truthy (short val)
       then shortopts st +:+
            (if takes_arg val then short val +:+ ":" else short val)
       else shortopts st;
     opthelp := opthelp st +:+ helpline padding flag val |}.

Definition declare (padding : nat) (items : list (string * OptVal)) : Decl :=
  fold_left (declare_step padding) items
            {| longopts := []; shortopts := EmptyString;
               decl_flags := ∅; opthelp := EmptyString |}.

(** *** The usage string (source lines 158-164) *)
Definition build_usage {R} (cls : Class R) (table : OrderedDict.t)
           (opthelp : string) : string :=
  let usage := usagestr cls in
  let usage :=
    if Str.truthy (description cls)
    then usage +:+ nl +:+ nl +:+ description cls else usage in
  let usage :=
    match table with
    | [] => usage
    | _ :: _ => usage +:+ nl +:+ nl +:+ "Options:" +:+ nl +:+ opthelp
    end in
  if Str.truthy (usageTextExtra cls)
  then usage +:+ nl +:+ usageTextExtra cls else usage.

(** *** Matching (source lines 173-189) *)

(** The value stored for a matched option. *)
Definition matched_value (val : OptVal) (opt : string * string) : PyVal :=
  if takes_arg val then PyStr (snd opt) else PyBool true.

(** The body of the inner loop, for the token [opt] and one table
    entry; [opt[0][1]] raises [IndexError] on a token shorter than two
    characters. *)
Definition match_step (opt : string * string) (flags : gmap string PyVal)
           (item : string * OptVal) : Outcome (gmap string PyVal) :=
  let '(flag, val) := item in
  match String.get 1 (fst opt) with
  | None => Raise IndexError
  | Some c =>
      if negb (Ascii.eqb c "-") then
        (* Short tags *)
        if String.eqb (String c EmptyString) (short val)
        then Return (<[flag := matched_value val opt]> flags)
        else Return flags
      else
        (* Long tags *)
        if String.eqb (Str.drop 2 (fst opt)) flag
        then Return (<[flag := matched_value val opt]> flags)
        else Return flags
  end.

(** A [for] loop whose body may raise. *)
Fixpoint for_each {A S : Type} (body : S -> A -> Outcome S) (xs : list A)
         (s : S) : Outcome S :=
  match xs with
  | [] => Return s
  | x :: xs' =>
      match body s x with
      | Return s' => for_each body xs' s'
      | Raise e => Raise e
      end
  end.

Definition match_opts (table : OrderedDict.t) (opts : getopt.tokens)
           (flags : gmap string PyVal) : Outcome (gmap string PyVal) :=
  for_each (fun flags opt =>
              for_each (match_step opt) (OrderedDict.items table) flags)
           opts flags.

(** *** [CommandBase.__init__(self, argv)] *)

(** [self.optionList = OrderedDict(self.optionList)] *)
Definition table {R} (cls : Class R) : OrderedDict.t :=
  OrderedDict.make (optionList cls).

(** The state after the two loops over the table. *)
Definition declared {R} (cls : Class R) : Decl :=
  let items := OrderedDict.items (table cls) in
  declare (compute_padding items) items.

(** [getopt.getopt(argv, shortopts, longopts)] *)
Definition tokenize {R} (cls : Class R) (argv : list string)
  : getopt.result :=
  getopt.getopt argv (shortopts (declared cls)) (longopts (declared cls)).

Definition __init__ {R} (cls : Class R) (argv : list string)
  : Outcome (t R) :=
  let usage := build_usage cls (table cls) (opthelp (declared cls)) in
  match tokenize cls argv with
  | inl err =>
      (* Stop when an invalid option is parsed *)
      Return {| class := cls; error := Some err;
                flags := PlainDict (decl_flags (declared cls)); args := [];
                parentFlags := ∅; usage := usage;
                self_optionList := table cls |}
  | inr (opts, args) =>
      match match_opts (table cls) opts (decl_flags (declared cls)) with
      | Raise e => Raise e
      | Return flags =>
          Return {| class := cls; error := None;
                    flags := DictObject flags; args := args;
                    parentFlags := ∅; usage := usage;
                    self_optionList := table cls |}
      end
  end.

(** *** [CommandBase.run(self)] *)
Definition run {R} (self : t R) : Eff R :=
  match args self with
  | [] =>
      print (usage self) ;;; raise (CommandExit 2)
  | name :: rest =>
      match commands (class self) !! name with
      | Some entry => entry rest
      | None =>
          print ("error: command " +:+ name +:+ " does not exist") ;;;
          raise (CommandExit 1)
      end
  end.

(** *** [CommandBase.registerParentFlag(self, optionName, value)] *)
Definition registerParentFlag {R} (self : t R) (optionName : string)
           (value : PyVal) : t R :=
  {| class := class self; error := error self; flags := flags self;
     args := args self;
     parentFlags := <[optionName := value]> (parentFlags self);
     usage := usage self; self_optionList := self_optionList self |}.

End CommandBase.

(** ** The process-level entry point *)

(** What [run_and_exit] needs of the class it is given: a constructor
    taking the argument vector, the instance's [error] and its [run]. *)
Record CommandClass : Type := mkCommandClass {
  instance : Type;
  new : list string -> Eff instance;
  error_of : instance -> option GetoptError;
  run_of : instance -> Eff PyVal
}.

(** A [CommandBase] subclass that keeps the inherited [__init__] and
    [run]. *)
Definition base_class (cls : CommandBase.Class PyVal) : CommandClass :=
  {| instance := CommandBase.t PyVal;
     new := fun argv => lift (CommandBase.__init__ cls argv);
     error_of := CommandBase.error;
     run_of := CommandBase.run |}.

(** [sys.exit(arg)] *)
Definition sys_exit {A} (arg : PyVal) : Eff A := raise (SystemExit arg).

(** [run_and_exit(command_class)], with [sys.argv] as a parameter. *)
Definition run_and_exit (command_class : CommandClass)
           (sys_argv : list string) : Eff PyVal :=
  cmd <- new command_class (tail sys_argv) ;;
  match error_of command_class cmd with
  | Some err =>
      print ("error: " +:+ msg err) ;;; sys_exit (PyInt 1)
  | None =>
      status <- run_of command_class cmd ;; sys_exit status
  end.

(** The status the process ends with when the exception [e] reaches the
    top level. [SystemExit] carries it: [None] is 0, an integer is passed
    to the platform's [exit], which keeps its low eight bits (so 256 ends
    as 0), and any other object is printed and gives 1. Every other
    uncaught exception gives 1. *)
Definition exit_status (e : PyExn) : Z :=
  match e with
  | SystemExit PyNone => 0
  | SystemExit (PyInt z) => z mod 256
  | SystemExit (PyBool b) => if b then 1 else 0
  | _ => 1
  end%Z.

(** ** Views of the declaration loop *)

(** Concatenation of a list of strings. *)
Definition join (parts : list string) : string :=
  fold_right String.append EmptyString parts.

Definition longspec (item : string * OptVal) : string :=
  if takes_arg (snd item) then fst item +:+ "=" else fst item.

Definition shortspec (item : string * OptVal) : string :=
  if Str.truthy (short (snd item))
  then (if takes_arg (snd item) then short (snd item) +:+ ":"
        else short (snd item))
  else EmptyString.

(** ** Views of the tokens and of the matching loop *)

(** The shape of the option tokens [getopt] returns: a dash and one
    character, or two dashes and a name. *)
Definition token_ok (opt : string * string) : Prop :=
  (exists c, fst opt = String "-" (String c EmptyString))
  \/ (exists name, fst opt = "--" +:+ name).

(** The test of the inner matching loop on a token of that shape. *)
Definition matches (token : string) (flag : string) (val : OptVal) : bool :=
  match String.get 1 token with
  | Some c =>
      if negb (Ascii.eqb c "-")
      then String.eqb (String c EmptyString) (short val)
      else String.eqb (Str.drop 2 token) flag
  | None => false
  end.

(** The entry of one option after the tokens [opts], from its entry
    [cur] before them. *)
Definition entry_after (opts : getopt.tokens) (flag : string) (val : OptVal)
           (cur : option PyVal) : option PyVal :=
  fold_left (fun cur opt =>
               if matches (fst opt) flag val
               then Some (CommandBase.matched_value val opt) else cur)
            opts cur.

(** ** Example commands *)

Module Examples.

(** The table of the specification's concrete scenarios. *)
Definition help_opt : OptVal := mkOpt "h" None "show help".
Definition file_opt : OptVal := mkOpt "f" (Some "<path>") "use file".

(** A subcommand entry point that prints its argument vector. *)
Definition build (argv : list string) : Eff PyVal := (argv, Return PyNone).

Definition scenario : CommandBase.Class PyVal :=
  CommandBase.mkClass "usage: command [options]" ""
    [("help", help_opt); ("file", file_opt)] "" {[ "build" := build ]}.

(** Two options declared with the same short letter. *)
Definition verbose_opt : OptVal := mkOpt "v" None "be verbose".
Definition version_opt : OptVal := mkOpt "v" None "show version".

Definition shared_letter : CommandBase.Class PyVal :=
  CommandBase.mkClass "usage: command [options]" ""
    [("verbose", verbose_opt); ("version", version_opt)] "" ∅.

(** An instance whose positional arguments select [build]. *)
Definition dispatching : CommandBase.t PyVal :=
  {| CommandBase.class := scenario; CommandBase.error := None;
     CommandBase.flags :=
       DictObject {[ "help" := PyNone; "file" := PyNone ]};
     CommandBase.args := ["build"; "-n"];
     CommandBase.parentFlags := ∅;
     CommandBase.usage := "usage: command [options]";
     CommandBase.self_optionList := [("help", help_opt); ("file", file_opt)] |}.

End Examples.

(** ** The specification's wording

    The definitions of this module follow the sentences of the
    specification, to be compared with the code above. *)

Module Spec.

(** "a short letter exists": [val[0]] is not the empty string. *)
Definition has_short (val : OptVal) : bool :=
  negb (String.eqb (short val) EmptyString).

(** "a placeholder exists": the option takes a value. An empty
    placeholder counts as none, as an empty short letter does. *)
Definition has_placeholder (val : OptVal) : bool :=
  match argument val with
  | Some a => negb (String.eqb a EmptyString)
  | None => false
  end.

(** The rendered-width estimate of one option (§4.2). *)
Definition width_estimate (flag : string) (val : OptVal) : nat :=
  (String.length flag + 2)
  + (if has_short val then 4 else 0)
  + (if has_short val && has_placeholder val
     then String.length (argname val) + 1 else 0)
  + (if has_placeholder val then String.length (argname val) + 1 else 0).

(** "The table-wide padding is the maximum such estimate across all
    options." *)
Definition padding (items : list (string * OptVal)) : nat :=
  max_list (map (fun item => width_estimate (fst item) (snd item)) items).

(** The option text as §4.2 words it: [-{short}, --{long}[=<placeholder>]]
    with a short letter, [--{long}[=<placeholder>]] without. *)
Definition claimed_optline (flag : string) (val : OptVal) : string :=
  (if has_short val then "-" +:+ short val +:+ ", " else EmptyString)
  +:+ "--" +:+ flag
  +:+ (if has_placeholder val then "=" +:+ argname val else EmptyString).

Definition claimed_line (padding : nat) (flag : string) (val : OptVal)
  : string :=
  Str.ljust (claimed_optline flag val) padding +:+ "  " +:+ desc val +:+ nl.

(** The option text the code renders: the placeholder follows the short
    letter too. *)
Definition rendered_optline (flag : string) (val : OptVal) : string :=
  match has_short val, has_placeholder val with
  | true, true =>
      "-" +:+ short val +:+ " " +:+ argname val
      +:+ ", --" +:+ flag +:+ "=" +:+ argname val
  | true, false => "-" +:+ short val +:+ ", --" +:+ flag
  | false, true => "--" +:+ flag +:+ "=" +:+ argname val
  | false, false => "--" +:+ flag
  end.

Definition rendered_line (padding : nat) (flag : string) (val : OptVal)
  : string :=
  Str.ljust (rendered_optline flag val) padding
  +:+ "  " +:+ desc val +:+ nl.

(** A token is in short form when it has a single leading dash and in
    long form when it has two (§4.3). *)
Definition long_form (token : string) : bool := Str.startswith "--" token.
Definition short_form (token : string) : bool :=
  Str.startswith "-" token && negb (long_form token).

(** The token spells the option: [-x] in short form for its short
    letter [x], or [--name] for its long name. *)
Definition spells (token : string) (flag : string) (val : OptVal) : bool :=
  (short_form token && String.eqb token ("-" +:+ short val))
  || String.eqb token ("--" +:+ flag).


(** "contains no option tokens": no argument starts with a dash, the
    lone dash (an ordinary argument) apart. *)
Definition no_option_tokens (argv : list string) : Prop :=
  Forall (fun a => Str.startswith "-" a = true -> a = "-") argv.

(** The unset sentinel and the set values of a flag. *)
Definition unset : PyVal := PyNone.

End Spec.

(** ** Wording of the further properties *)

(** The last of the tokens [opts] that spells the option, if any. *)
Definition last_spelling (opts : getopt.tokens) (flag : string) (val : OptVal)
  : option (string * string) :=
  List.find (fun opt => Spec.spells (fst opt) flag val) (rev opts).

(** The last declaration of the name [k] in a class attribute
    [optionList]. *)
Definition last_declaration (pairs : list (string * OptVal)) (k : string)
  : option OptVal :=
  option_map snd (List.find (fun kv => String.eqb (fst kv) k) (rev pairs)).

(** The character [c] occurs in [s]. *)
Fixpoint occurs (c : ascii) (s : string) : bool :=
  match s with
  | EmptyString => false
  | String a s' => Ascii.eqb a c || occurs c s'
  end.

(** A command with a flag named like a method of [dict]. *)
Definition shadowing : CommandBase.Class PyVal :=
  CommandBase.mkClass "usage: command [options]" ""
    [("update", mkOpt "u" None "update the index")] "" ∅.

(** A command whose table declares the name [level] twice. *)
Definition redeclared : CommandBase.Class PyVal :=
  CommandBase.mkClass "usage: command [options]" ""
    [("level", mkOpt "l" None "first declaration");
     ("quiet", mkOpt "q" None "say less");
     ("level", mkOpt "L" (Some "<n>") "second declaration")] "" ∅.

(** Parsing [argv] succeeds, stores the string [value] for the option
    [flag] and leaves the positional arguments [V]. *)
Definition parses_to {R : Type} (cls : CommandBase.Class R)
           (argv : list string) (flag value : string) (V : list string)
  : Prop :=
  exists cmd,
    CommandBase.__init__ cls argv = Return cmd
    /\ CommandBase.error cmd = None
    /\ entries (CommandBase.flags cmd) !! flag = Some (PyStr value)
    /\ CommandBase.args cmd = V.

(** * Properties *)

(** ** Strings *)

Lemma string_eqb_true (a b : string) : String.eqb a b = true <-> a = b.
Proof. apply String.eqb_eq. Qed.

Lemma string_app_cons (x : ascii) (a b : string) :
  String x a +:+ b = String x (a +:+ b).
Proof. reflexivity. Qed.

Lemma string_app_nil_l (b : string) : EmptyString +:+ b = b.
Proof. reflexivity. Qed.

Lemma string_app_assoc (a b c : string) : (a +:+ b) +:+ c = a +:+ (b +:+ c).
Proof.
  induction a as [|x a IH]; [reflexivity|].
  rewrite !string_app_cons. now rewrite IH.
Qed.

Lemma string_app_nil_r (a : string) : a +:+ EmptyString = a.
Proof.
  induction a as [|x a IH]; [reflexivity|].
  rewrite string_app_cons. now rewrite IH.
Qed.

Lemma truthy_has_short (val : OptVal) :
  Spec.has_short val = Str.truthy (short val).
Proof. unfold Spec.has_short. now destruct (short val). Qed.

Lemma takes_arg_has_placeholder (val : OptVal) :
  Spec.has_placeholder val = takes_arg val.
Proof.
  unfold Spec.has_placeholder, takes_arg.
  destruct (argument val) as [a|]; [now destruct a | reflexivity].
Qed.

(** ** The ordered table *)

Lemma od_set_keys (k : string) (v : OptVal) (d : OrderedDict.t) :
  OrderedDict.keys (OrderedDict.set k v d)
  = if existsb (String.eqb k) (OrderedDict.keys d)
    then OrderedDict.keys d else OrderedDict.keys d ++ [k].
Proof.
  induction d as [|[k' v'] d IH]; simpl; [reflexivity|].
  destruct (String.eqb k' k) eqn:E.
  - apply string_eqb_true in E. subst k'.
    rewrite String.eqb_refl. reflexivity.
  - rewrite String.eqb_sym, E. simpl. rewrite IH.
    now destruct (existsb _ _).
Qed.

Lemma od_set_NoDup (k : string) (v : OptVal) (d : OrderedDict.t) :
  NoDup (OrderedDict.keys d) -> NoDup (OrderedDict.keys (OrderedDict.set k v d)).
Proof.
  intros Hd. rewrite od_set_keys.
  destruct (existsb _ _) eqn:E; [assumption|].
  apply NoDup_app. split; [assumption|]. split.
  - intros x Hx Hk. apply list_elem_of_singleton in Hk. subst x.
    assert (existsb (String.eqb k) (OrderedDict.keys d) = true) as E'.
    { apply existsb_exists. exists k. split.
      - now apply list_elem_of_In.
      - apply String.eqb_refl. }
    congruence.
  - apply NoDup_singleton.
Qed.

Lemma od_make_NoDup (pairs : list (string * OptVal)) :
  NoDup (OrderedDict.keys (OrderedDict.make pairs)).
Proof.
  unfold OrderedDict.make.
  assert (forall d, NoDup (OrderedDict.keys d) ->
    NoDup (OrderedDict.keys
             (fold_left (fun d kv => OrderedDict.set (fst kv) (snd kv) d) pairs d)))
    as H.
  { induction pairs as [|kv pairs IH]; intros d Hd; simpl; [assumption|].
    apply IH. now apply od_set_NoDup. }
  apply H. constructor.
Qed.

(** ** Padding *)

Lemma optlen_width_estimate (flag : string) (val : OptVal) :
  CommandBase.optlen flag val = Spec.width_estimate flag val.
Proof.
  unfold CommandBase.optlen, Spec.width_estimate.
  now rewrite truthy_has_short, takes_arg_has_placeholder.
Qed.

Lemma padding_fold_max (items : list (string * OptVal)) (p0 : nat) :
  fold_left CommandBase.padding_step items p0
  = Nat.max p0 (Spec.padding items).
Proof.
  revert p0. induction items as [|[flag val] items IH]; intros p0.
  - unfold Spec.padding. simpl. lia.
  - simpl. rewrite IH. unfold CommandBase.padding_step, Spec.padding. simpl.
    rewrite optlen_width_estimate.
    destruct (Nat.ltb_spec p0 (Spec.width_estimate flag val)); lia.
Qed.

Lemma compute_padding_spec (items : list (string * OptVal)) :
  CommandBase.compute_padding items = Spec.padding items.
Proof. unfold CommandBase.compute_padding. now rewrite padding_fold_max. Qed.

Lemma padding_bounds_each (items : list (string * OptVal)) :
  Forall (fun item => Spec.width_estimate (fst item) (snd item)
                      <= Spec.padding items) items.
Proof.
  unfold Spec.padding. induction items as [|item items IH]; constructor.
  - simpl. lia.
  - eapply Forall_impl; [exact IH|]. intros x Hx. simpl in *. lia.
Qed.

Lemma padding_attained (items : list (string * OptVal)) :
  items <> [] ->
  Exists (fun item => Spec.width_estimate (fst item) (snd item)
                      = Spec.padding items) items.
Proof.
  unfold Spec.padding. induction items as [|item items IH]; [congruence|].
  intros _. simpl.
  destruct (Nat.max_spec (Spec.width_estimate (fst item) (snd item))
              (max_list (map (fun item => Spec.width_estimate (fst item) (snd item))
                             items))) as [[Hlt Hm]|[Hge Hm]].
  - destruct items as [|item' items'].
    + simpl in Hlt. lia.
    + apply Exists_cons_tl. rewrite Hm.
      apply IH. congruence.
  - apply Exists_cons_hd. now rewrite Hm.
Qed.

(** ** The declaration loop *)

Lemma declare_fold (padding : nat) (items : list (string * OptVal))
      (st : CommandBase.Decl) :
  let st' := fold_left (CommandBase.declare_step padding) items st in
  CommandBase.longopts st' = CommandBase.longopts st ++ map longspec items
  /\ CommandBase.shortopts st'
     = CommandBase.shortopts st +:+ join (map shortspec items)
  /\ CommandBase.opthelp st'
     = CommandBase.opthelp st
       +:+ join (map (fun item => CommandBase.helpline padding (fst item) (snd item))
                     items)
  /\ CommandBase.decl_flags st'
     = fold_left (fun m item => <[fst item := PyNone]> m) items
                 (CommandBase.decl_flags st).
Proof.
  cbv zeta. revert st.
  induction items as [|[flag val] items IH]; intros st; cbn [fold_left map].
  - cbn [join fold_right]. rewrite app_nil_r, !string_app_nil_r. auto.
  - destruct (IH (CommandBase.declare_step padding st (flag, val)))
      as (Hl & Hs & Hh & Hf).
    rewrite Hl, Hs, Hh, Hf. cbn [join fold_right].
    unfold CommandBase.declare_step at 1 2 3 4.
    cbn [CommandBase.longopts CommandBase.shortopts CommandBase.opthelp
         CommandBase.decl_flags fst snd].
    repeat split.
    + now rewrite <- app_assoc.
    + assert (shortspec (flag, val)
              = if Str.truthy (short val)
                then (if takes_arg val then short val +:+ ":" else short val)
                else EmptyString) as -> by reflexivity.
      destruct (Str.truthy (short val)).
      * now rewrite string_app_assoc.
      * now rewrite string_app_nil_l.
    + now rewrite string_app_assoc.
Qed.

Lemma insert_all_lookup (items : list (string * OptVal))
      (m : gmap string PyVal) (k : string) :
  fold_left (fun m item => <[fst item := PyNone]> m) items m !! k
  = if decide (k ∈ map fst items) then Some PyNone else m !! k.
Proof.
  revert m. induction items as [|[flag val] items IH]; intros m.
  - cbn [fold_left map]. rewrite decide_False; [reflexivity|].
    apply not_elem_of_nil.
  - cbn [fold_left map fst]. rewrite IH.
    destruct (decide (k ∈ map fst items)) as [H|H].
    + rewrite decide_True; [reflexivity | now apply elem_of_cons; right].
    + destruct (decide (k = flag)) as [->|Hne].
      * rewrite lookup_insert_eq.
        rewrite decide_True; [reflexivity | now apply elem_of_cons; left].
      * rewrite lookup_insert_ne by congruence.
        rewrite decide_False; [reflexivity|].
        intros [?|?]%elem_of_cons; contradiction.
Qed.

Lemma decl_flags_lookup (padding : nat) (items : list (string * OptVal))
      (k : string) :
  CommandBase.decl_flags (CommandBase.declare padding items) !! k
  = if decide (k ∈ map fst items) then Some PyNone else None.
Proof.
  unfold CommandBase.declare.
  destruct (declare_fold padding items
              {| CommandBase.longopts := []; CommandBase.shortopts := EmptyString;
                 CommandBase.decl_flags := ∅; CommandBase.opthelp := EmptyString |})
    as (_ & _ & _ & Hf).
  rewrite Hf, insert_all_lookup. simpl.
  now rewrite lookup_empty.
Qed.

Lemma opthelp_lines (padding : nat) (items : list (string * OptVal)) :
  CommandBase.opthelp (CommandBase.declare padding items)
  = join (map (fun item => CommandBase.helpline padding (fst item) (snd item))
              items).
Proof.
  unfold CommandBase.declare.
  destruct (declare_fold padding items
              {| CommandBase.longopts := []; CommandBase.shortopts := EmptyString;
                 CommandBase.decl_flags := ∅; CommandBase.opthelp := EmptyString |})
    as (_ & _ & Hh & _).
  now rewrite Hh.
Qed.

Lemma optline_rendered (flag : string) (val : OptVal) :
  CommandBase.optline flag val = Spec.rendered_optline flag val.
Proof.
  unfold CommandBase.optline, Spec.rendered_optline.
  rewrite truthy_has_short, takes_arg_has_placeholder.
  destruct (Spec.has_short val), (takes_arg val);
    rewrite ?string_app_assoc; reflexivity.
Qed.

Lemma helpline_rendered (padding : nat) (flag : string) (val : OptVal) :
  CommandBase.helpline padding flag val = Spec.rendered_line padding flag val.
Proof.
  unfold CommandBase.helpline, Spec.rendered_line.
  now rewrite optline_rendered.
Qed.

(** C2. For every option table, the padding width the constructor
    computes is the maximum, over all declared options (0 when there are
    none), of: the length of the long name plus 2, plus 4 if a short
    letter exists, plus the placeholder length plus 1 if both a short
    letter and a placeholder exist, plus the placeholder length plus 1
    again if a placeholder exists; an option with both forms therefore
    counts its placeholder width twice. *)
Theorem padding_is_max_width_estimate (table : OrderedDict.t) :
  CommandBase.compute_padding (OrderedDict.items table)
  = max_list (map (fun item => Spec.width_estimate (fst item) (snd item))
                  (OrderedDict.items table))
  /\ (forall flag val,
         CommandBase.optlen flag val
         = String.length flag + 2
           + (if Spec.has_short val then 4 else 0)
           + (if Spec.has_short val && Spec.has_placeholder val
              then String.length (argname val) + 1 else 0)
           + (if Spec.has_placeholder val
              then String.length (argname val) + 1 else 0))
  /\ (forall flag val,
         Spec.has_short val = true -> Spec.has_placeholder val = true ->
         CommandBase.optlen flag val
         = String.length flag + 2 + 4 + 2 * (String.length (argname val) + 1)).
Proof.
  split; [apply compute_padding_spec|]. split.
  - intros flag val. apply optlen_width_estimate.
  - intros flag val Hs Hp. rewrite optlen_width_estimate.
    unfold Spec.width_estimate. rewrite Hs, Hp. simpl. lia.
Qed.

Lemma padding_is_max_width_estimate_witness :
  CommandBase.compute_padding
    [("help", mkOpt "h" None "show help");
     ("file", mkOpt "f" (Some "<path>") "use file")] = 24
  /\ CommandBase.optlen "file" (mkOpt "f" (Some "<path>") "use file") = 24.
Proof.
  destruct (padding_is_max_width_estimate
              [("help", mkOpt "h" None "show help");
               ("file", mkOpt "f" (Some "<path>") "use file")])
    as (Hmax & _ & Htwice).
  split.
  - etransitivity; [exact Hmax | reflexivity].
  - apply (Htwice "file" (mkOpt "f" (Some "<path>") "use file"));
      reflexivity.
Defined.

(** C3, as the code renders it. For every declared option, its usage
    line is [-{short}, --{long}] when a short letter exists and the option
    takes no value, [-{short} {placeholder}, --{long}={placeholder}] when
    it has a short letter and takes a value, and [--{long}] or
    [--{long}={placeholder}] without a short letter; the text is
    left-justified to the table-wide padding width and followed by
    exactly two spaces, the description and a newline, and the options
    block is these lines in table order. *)
Theorem usage_lines_rendered {R : Type} (cls : CommandBase.Class R) :
  let items := OrderedDict.items (CommandBase.table cls) in
  CommandBase.opthelp (CommandBase.declared cls)
  = join (map (fun item =>
                 Str.ljust (Spec.rendered_optline (fst item) (snd item))
                           (Spec.padding items)
                 +:+ "  " +:+ desc (snd item) +:+ nl)
              items).
Proof.
  cbv zeta. unfold CommandBase.declared.
  rewrite opthelp_lines, compute_padding_spec.
  f_equal. apply map_ext. intros [flag val].
  apply helpline_rendered.
Qed.

(** C3 as the specification states it fails for an option that has a
    short letter and takes a value: the code writes the placeholder after
    the short letter as well. *)
Lemma usage_line_not_as_claimed :
  let val := mkOpt "f" (Some "<path>") "use file" in
  let cls : CommandBase.Class PyVal :=
    CommandBase.mkClass "usage: command [options]" "" [("file", val)] "" ∅ in
  let padding := Spec.padding (OrderedDict.items (CommandBase.table cls)) in
  CommandBase.opthelp (CommandBase.declared cls)
  = "-f <path>, --file=<path>  use file" +:+ nl
  /\ Spec.claimed_line padding "file" val
     = "-f, --file=<path>         use file" +:+ nl
  /\ CommandBase.opthelp (CommandBase.declared cls)
     <> Spec.claimed_line padding "file" val.
Proof.
  cbv zeta. split; [reflexivity|]. split; [reflexivity|].
  vm_compute. discriminate.
Qed.

(** ** The tokenizer *)

Lemma do_shorts_ok (optstring shortopts : string) :
  forall (opts : getopt.tokens) (args : list string) opts' args',
    getopt.do_shorts opts optstring shortopts args = inr (opts', args') ->
    exists new, opts' = opts ++ new /\ Forall token_ok new
                /\ length args' <= length args.
Proof.
  induction optstring as [|c optstring IH]; intros opts args opts' args' H.
  - simpl in H. inversion H; subst. exists []. rewrite app_nil_r. auto.
  - simpl in H.
    assert (token_ok ("-" +:+ String c EmptyString, EmptyString)) as Hok
      by (left; now exists c).
    destruct (getopt.short_has_arg c shortopts) as [e|[|]]; [discriminate| |].
    + destruct optstring as [|c' optstring'].
      * destruct args as [|optarg args]; [discriminate|].
        inversion H; subst. eexists. split; [reflexivity|].
        split; [|simpl; lia]. constructor; [|constructor]. left. now exists c.
      * inversion H; subst. eexists. split; [reflexivity|].
        split; [|lia]. constructor; [|constructor]. left. now exists c.
    + apply IH in H. destruct H as (new & -> & Hnew & Hlen).
      exists (("-" +:+ String c EmptyString, EmptyString) :: new).
      rewrite <- app_assoc. split; [reflexivity|]. split; [|assumption].
      now constructor.
Qed.

Lemma do_longs_ok (opt : string) (longopts : list string)
      (opts : getopt.tokens) (args : list string) opts' args' :
  getopt.do_longs opts opt longopts args = inr (opts', args') ->
  exists new, opts' = opts ++ new /\ Forall token_ok new
              /\ length args' <= length args.
Proof.
  unfold getopt.do_longs. intros H.
  destruct (match Str.split_at "=" opt with
            | Some (l, r) => (l, Some r)
            | None => (opt, None)
            end) as [name optarg].
  destruct (getopt.long_has_args name longopts) as [e|[[|] full]];
    [discriminate| |].
  - destruct optarg as [optarg|].
    + inversion H; subst. eexists. split; [reflexivity|].
      split; [|lia]. constructor; [|constructor]. right. now exists full.
    + destruct args as [|optarg args]; [discriminate|].
      inversion H; subst. eexists. split; [reflexivity|].
      split; [|simpl; lia]. constructor; [|constructor]. right. now exists full.
  - destruct optarg as [optarg|]; [discriminate|].
    inversion H; subst. eexists. split; [reflexivity|].
    split; [|lia]. constructor; [|constructor]. right. now exists full.
Qed.

Lemma getopt_loop_ok (shortopts : string) (longopts : list string) :
  forall (fuel : nat) (opts : getopt.tokens) (args : list string),
    length args <= fuel ->
    exists r, getopt.loop fuel opts args shortopts longopts = Some r
              /\ forall opts' args',
                  r = inr (opts', args') ->
                  exists new, opts' = opts ++ new /\ Forall token_ok new
                              /\ length args' <= length args.
Proof.
  assert (forall (opts : getopt.tokens) (args : list string),
             exists new : getopt.tokens,
               opts = opts ++ new /\ Forall token_ok new
               /\ length args <= length args) as Hstop.
  { intros opts args. exists []. rewrite app_nil_r. auto. }
  induction fuel as [|fuel IH]; intros opts args Hfuel.
  - destruct args as [|a rest]; [|simpl in Hfuel; lia].
    eexists. split; [reflexivity|]. intros ? ? [= <- <-]. apply Hstop.
  - destruct args as [|a rest].
    + eexists. split; [reflexivity|]. intros ? ? [= <- <-]. apply Hstop.
    + cbn [getopt.loop]. destruct (getopt.is_option_token a).
      * destruct (String.eqb a "--").
        { eexists. split; [reflexivity|]. intros ? ? [= <- <-].
          exists []. rewrite app_nil_r. simpl. auto. }
        destruct (if Str.startswith "--" a
                  then getopt.do_longs opts (Str.drop 2 a) longopts rest
                  else getopt.do_shorts opts (Str.drop 1 a) shortopts rest)
          as [e|[opts1 args1]] eqn:Hstep.
        { eexists. split; [reflexivity|]. intros ? ? [=]. }
        assert (exists new, opts1 = opts ++ new /\ Forall token_ok new
                            /\ length args1 <= length rest)
          as (new1 & -> & Hnew1 & Hlen1).
        { destruct (Str.startswith "--" a);
            [eapply do_longs_ok | eapply do_shorts_ok]; exact Hstep. }
        simpl in Hfuel.
        destruct (IH (opts ++ new1) args1 ltac:(lia)) as (r & Hr & Hspec).
        exists r. split; [exact Hr|].
        intros opts' args' ->.
        destruct (Hspec _ _ eq_refl) as (new2 & -> & Hnew2 & Hlen2).
        exists (new1 ++ new2). rewrite app_assoc.
        split; [reflexivity|]. split; [now apply Forall_app|simpl; lia].
      * eexists. split; [reflexivity|]. intros ? ? [= <- <-]. apply Hstop.
Qed.

(** The fuel [getopt] gives its loop is enough. *)
Lemma getopt_loop_terminates (args : list string) (shortopts : string)
      (longopts : list string) :
  getopt.loop (length args) [] args shortopts longopts
  = Some (getopt.getopt args shortopts longopts).
Proof.
  unfold getopt.getopt.
  destruct (getopt_loop_ok shortopts longopts (length args) [] args (le_n _))
    as (r & -> & _).
  reflexivity.
Qed.

Lemma getopt_tokens_ok (args : list string) (shortopts : string)
      (longopts : list string) (opts : getopt.tokens) (rest : list string) :
  getopt.getopt args shortopts longopts = inr (opts, rest) ->
  Forall token_ok opts /\ length rest <= length args.
Proof.
  intros H.
  destruct (getopt_loop_ok shortopts longopts (length args) [] args (le_n _))
    as (r & Hr & Hspec).
  rewrite getopt_loop_terminates in Hr. inversion Hr; subst r.
  destruct (Hspec _ _ H) as (new & -> & Hnew & Hlen). auto.
Qed.

Lemma getopt_no_option_tokens (args : list string) (shortopts : string)
      (longopts : list string) :
  Spec.no_option_tokens args ->
  getopt.getopt args shortopts longopts = inr ([], args).
Proof.
  intros H. unfold getopt.getopt.
  destruct H as [|a rest Ha Hrest]; [reflexivity|].
  assert (getopt.is_option_token a = false) as Hno.
  { unfold getopt.is_option_token.
    destruct (Str.startswith "-" a); [|reflexivity].
    now rewrite (Ha eq_refl). }
  cbn [length getopt.loop]. now rewrite Hno.
Qed.

(** ** The matching loop *)

Lemma token_ok_get (opt : string * string) :
  token_ok opt -> exists c, String.get 1 (fst opt) = Some c.
Proof.
  intros [[c ->]|[name ->]]; [now exists c|].
  exists "-"%char. reflexivity.
Qed.

Lemma match_step_ok (opt : string * string) (flags : gmap string PyVal)
      (flag : string) (val : OptVal) :
  token_ok opt ->
  CommandBase.match_step opt flags (flag, val)
  = Return (if matches (fst opt) flag val
            then <[flag := CommandBase.matched_value val opt]> flags
            else flags).
Proof.
  intros Hok. destruct (token_ok_get opt Hok) as [c Hc].
  unfold CommandBase.match_step, matches. rewrite Hc.
  destruct (negb (Ascii.eqb c "-")).
  - now destruct (String.eqb _ _).
  - now destruct (String.eqb _ _).
Qed.

(** A token of the tokenizer passes the test of the loop exactly when it
    spells the option. *)
Lemma matches_spells (opt : string * string) (flag : string) (val : OptVal) :
  token_ok opt -> matches (fst opt) flag val = Spec.spells (fst opt) flag val.
Proof.
  intros [[c Hc]|[name Hn]].
  - rewrite Hc. unfold matches, Spec.spells, Spec.short_form, Spec.long_form,
      Str.startswith.
    rewrite !string_app_cons, !string_app_nil_l.
    destruct (Ascii.eqb_spec c "-") as [->|Hne].
    + destruct flag; reflexivity.
    + cbn [String.get String.prefix Str.drop negb].
      destruct (ascii_dec "-" "-") as [_|Hx]; [|congruence].
      destruct (ascii_dec "-" c) as [He|_]; [congruence|].
      cbn [andb negb].
      change (String.eqb (String "-" (String c "")) (String "-" (short val)))
        with (String.eqb (String c "") (short val)).
      change (String.eqb (String "-" (String c "")) (String "-" (String "-" flag)))
        with (if Ascii.eqb c "-" then String.eqb "" flag else false).
      apply Ascii.eqb_neq in Hne. rewrite Hne.
      now rewrite orb_false_r.
  - rewrite Hn. unfold matches, Spec.spells, Spec.short_form, Spec.long_form,
      Str.startswith.
    rewrite !string_app_cons, !string_app_nil_l.
    cbn [String.get Str.drop negb].
    change (Ascii.eqb "-" "-") with true. cbn [negb].
    assert (String.prefix "--" (String "-" (String "-" name)) = true) as ->.
    { cbn. now destruct name. }
    cbn [negb andb orb].
    change (String.eqb (String "-" (String "-" name)) (String "-" (String "-" flag)))
      with (String.eqb name flag).
    reflexivity.
Qed.

Lemma inner_loop_ok (opt : string * string) (Hok : token_ok opt)
      (items : list (string * OptVal)) :
  forall flags : gmap string PyVal,
  exists flags',
    CommandBase.for_each (CommandBase.match_step opt) items flags = Return flags'
    /\ (forall k, k ∉ map fst items -> flags' !! k = flags !! k)
    /\ (NoDup (map fst items) ->
        forall flag val, (flag, val) ∈ items ->
          flags' !! flag
          = if matches (fst opt) flag val
            then Some (CommandBase.matched_value val opt) else flags !! flag).
Proof.
  induction items as [|[flag0 val0] items IH]; intros flags.
  - exists flags. split; [reflexivity|]. split; [auto|].
    intros _ flag val H. now apply elem_of_nil in H.
  - cbn [CommandBase.for_each]. rewrite match_step_ok by assumption.
    destruct (IH (if matches (fst opt) flag0 val0
                  then <[flag0 := CommandBase.matched_value val0 opt]> flags
                  else flags)) as (flags' & Hrun & Hout & Hin).
    exists flags'. split; [exact Hrun|]. split.
    + intros k Hk. cbn [map fst] in Hk.
      apply not_elem_of_cons in Hk as [Hne Hk].
      rewrite (Hout k Hk).
      destruct (matches _ _ _); [now rewrite lookup_insert_ne|reflexivity].
    + cbn [map fst]. intros Hnd flag val Hmem.
      apply NoDup_cons in Hnd as [Hfresh Hnd].
      apply elem_of_cons in Hmem as [Heq|Hmem].
      * inversion Heq; subst flag0 val0.
        rewrite (Hout flag Hfresh).
        destruct (matches _ _ _); [now rewrite lookup_insert_eq|reflexivity].
      * rewrite (Hin Hnd flag val Hmem).
        destruct (matches (fst opt) flag val); [reflexivity|].
        assert (flag <> flag0) as Hne.
        { intros ->. apply Hfresh. apply list_elem_of_fmap.
          now exists (flag0, val). }
        destruct (matches _ _ _); [now rewrite lookup_insert_ne|reflexivity].
Qed.

Lemma match_opts_ok (table : OrderedDict.t) (Hnd : NoDup (OrderedDict.keys table))
      (opts : getopt.tokens) :
  Forall token_ok opts ->
  forall flags : gmap string PyVal,
  exists flags',
    CommandBase.match_opts table opts flags = Return flags'
    /\ (forall k, k ∉ OrderedDict.keys table -> flags' !! k = flags !! k)
    /\ (forall flag val, (flag, val) ∈ OrderedDict.items table ->
          flags' !! flag = entry_after opts flag val (flags !! flag)).
Proof.
  unfold CommandBase.match_opts, OrderedDict.keys, OrderedDict.items.
  induction 1 as [|opt opts Hopt Hopts IH]; intros flags.
  - exists flags. split; [reflexivity|]. auto.
  - cbn [CommandBase.for_each].
    destruct (inner_loop_ok opt Hopt table flags) as (flags1 & -> & Hout1 & Hin1).
    destruct (IH flags1) as (flags' & Hrun & Hout & Hin).
    exists flags'. split; [exact Hrun|]. split.
    + intros k Hk. now rewrite (Hout k Hk), (Hout1 k Hk).
    + intros flag val Hmem. rewrite (Hin flag val Hmem).
      unfold entry_after. cbn [fold_left].
      now rewrite (Hin1 Hnd flag val Hmem).
Qed.


Lemma entry_after_matched (opts : getopt.tokens) (flag : string) (val : OptVal)
      (cur : option PyVal) :
  (exists opt, opt ∈ opts /\ matches (fst opt) flag val = true) ->
  exists opt, opt ∈ opts /\ matches (fst opt) flag val = true
              /\ entry_after opts flag val cur
                 = Some (CommandBase.matched_value val opt).
Proof.
  unfold entry_after. revert cur.
  induction opts as [|opt opts IH]; intros cur (o & Hmem & Hm).
  - now apply elem_of_nil in Hmem.
  - cbn [fold_left].
    destruct (existsb (fun opt => matches (fst opt) flag val) opts) eqn:E.
    + apply existsb_exists in E as (o' & Hin' & Hm').
      destruct (IH (if matches (fst opt) flag val
                    then Some (CommandBase.matched_value val opt) else cur))
        as (o2 & Hmem2 & Hm2 & Heq).
      { exists o'. split; [now apply list_elem_of_In|assumption]. }
      exists o2. split; [now apply elem_of_cons; right|]. auto.
    + assert (forall c, fold_left
                (fun cur opt => if matches (fst opt) flag val
                                then Some (CommandBase.matched_value val opt)
                                else cur) opts c = c) as Hid.
      { clear -E. induction opts as [|x opts IHo]; intros c; [reflexivity|].
        cbn [existsb] in E. apply orb_false_elim in E as [Ex E].
        cbn [fold_left]. rewrite Ex. now apply IHo. }
      rewrite Hid.
      apply elem_of_cons in Hmem as [->|Hmem].
      * exists opt. rewrite Hm. split; [now apply elem_of_cons; left|]. auto.
      * exfalso. apply list_elem_of_In in Hmem.
        assert (existsb (fun opt => matches (fst opt) flag val) opts = true)
          as E' by (apply existsb_exists; eauto).
        congruence.
Qed.

(** ** The constructor *)

Lemma od_set_elem (x k : string) (v : OptVal) (d : OrderedDict.t) :
  x ∈ OrderedDict.keys (OrderedDict.set k v d)
  <-> x ∈ OrderedDict.keys d \/ x = k.
Proof.
  rewrite od_set_keys. destruct (existsb _ _) eqn:E.
  - apply existsb_exists in E as (k' & Hin & Heq).
    apply string_eqb_true in Heq. subst k'. apply list_elem_of_In in Hin.
    split; [auto|]. intros [H| ->]; assumption.
  - rewrite elem_of_app, list_elem_of_singleton. reflexivity.
Qed.

(** The keys of the table are the declared names. *)
Lemma od_make_keys (pairs : list (string * OptVal)) (x : string) :
  x ∈ OrderedDict.keys (OrderedDict.make pairs) <-> x ∈ map fst pairs.
Proof.
  unfold OrderedDict.make.
  assert (forall d,
    x ∈ OrderedDict.keys
          (fold_left (fun d kv => OrderedDict.set (fst kv) (snd kv) d) pairs d)
    <-> x ∈ OrderedDict.keys d \/ x ∈ map fst pairs) as H.
  { induction pairs as [|[k v] pairs IH]; intros d; cbn [fold_left map fst snd].
    - rewrite elem_of_nil. tauto.
    - rewrite IH, od_set_elem, elem_of_cons. tauto. }
  rewrite H. cbn. rewrite elem_of_nil. tauto.
Qed.

Lemma init_failure {R : Type} (cls : CommandBase.Class R) (argv : list string)
      (err : GetoptError) :
  CommandBase.tokenize cls argv = inl err ->
  CommandBase.__init__ cls argv
  = Return {| CommandBase.class := cls; CommandBase.error := Some err;
              CommandBase.flags :=
                PlainDict (CommandBase.decl_flags (CommandBase.declared cls));
              CommandBase.args := []; CommandBase.parentFlags := ∅;
              CommandBase.usage :=
                CommandBase.build_usage cls (CommandBase.table cls)
                  (CommandBase.opthelp (CommandBase.declared cls));
              CommandBase.self_optionList := CommandBase.table cls |}.
Proof. intros H. unfold CommandBase.__init__. now rewrite H. Qed.

Lemma declared_flags_lookup {R : Type} (cls : CommandBase.Class R) (k : string) :
  CommandBase.decl_flags (CommandBase.declared cls) !! k
  = if decide (k ∈ OrderedDict.keys (CommandBase.table cls))
    then Some PyNone else None.
Proof. unfold CommandBase.declared. apply decl_flags_lookup. Qed.

Lemma init_success {R : Type} (cls : CommandBase.Class R) (argv : list string)
      (opts : getopt.tokens) (rest : list string) :
  CommandBase.tokenize cls argv = inr (opts, rest) ->
  exists d,
    CommandBase.__init__ cls argv
    = Return {| CommandBase.class := cls; CommandBase.error := None;
                CommandBase.flags := DictObject d;
                CommandBase.args := rest; CommandBase.parentFlags := ∅;
                CommandBase.usage :=
                  CommandBase.build_usage cls (CommandBase.table cls)
                    (CommandBase.opthelp (CommandBase.declared cls));
                CommandBase.self_optionList := CommandBase.table cls |}
    /\ (forall k, k ∉ OrderedDict.keys (CommandBase.table cls) -> d !! k = None)
    /\ (forall flag val,
          (flag, val) ∈ OrderedDict.items (CommandBase.table cls) ->
          d !! flag = entry_after opts flag val (Some PyNone)).
Proof.
  intros H. unfold CommandBase.__init__. rewrite H.
  apply getopt_tokens_ok in H as [Hok _].
  destruct (match_opts_ok (CommandBase.table cls) (od_make_NoDup _) opts Hok
              (CommandBase.decl_flags (CommandBase.declared cls)))
    as (d & -> & Hout & Hin).
  exists d. split; [reflexivity|]. split.
  - intros k Hk. rewrite (Hout k Hk), declared_flags_lookup.
    now rewrite decide_False.
  - intros flag val Hmem. rewrite (Hin flag val Hmem), declared_flags_lookup.
    rewrite decide_True; [reflexivity|].
    apply list_elem_of_fmap. now exists (flag, val).
Qed.

Lemma init_returns {R : Type} (cls : CommandBase.Class R) (argv : list string) :
  exists cmd, CommandBase.__init__ cls argv = Return cmd.
Proof.
  destruct (CommandBase.tokenize cls argv) as [err|[opts rest]] eqn:H.
  - eexists. exact (init_failure cls argv err H).
  - destruct (init_success cls argv opts rest H) as (d & -> & _). eauto.
Qed.

Lemma init_no_error {R : Type} (cls : CommandBase.Class R) (argv : list string)
      (cmd : CommandBase.t R) :
  CommandBase.__init__ cls argv = Return cmd ->
  CommandBase.error cmd = None ->
  exists opts, CommandBase.tokenize cls argv = inr (opts, CommandBase.args cmd).
Proof.
  intros Hinit Herr.
  destruct (CommandBase.tokenize cls argv) as [err|[opts rest]] eqn:H.
  - rewrite (init_failure cls argv err H) in Hinit.
    inversion Hinit; subst cmd. discriminate.
  - destruct (init_success cls argv opts rest H) as (d & Hd & _).
    rewrite Hd in Hinit. inversion Hinit; subst cmd. now exists opts.
Qed.

(** ** Failure of the tokenizer *)

(** C4. For every option table and argument vector, when the tokenizer
    fails, the constructor returns normally (the failure is not raised out
    of it), the instance's parse error is that failure, and no flag
    matching is performed: the flag map is the one the declaration loop
    built and holds no matched value. *)
Theorem tokenizer_failure_captured {R : Type} (cls : CommandBase.Class R)
        (argv : list string) (err : GetoptError) :
  CommandBase.tokenize cls argv = inl err ->
  exists cmd,
    CommandBase.__init__ cls argv = Return cmd
    /\ CommandBase.error cmd = Some err
    /\ CommandBase.flags cmd
       = PlainDict (CommandBase.decl_flags (CommandBase.declared cls))
    /\ (forall k v, entries (CommandBase.flags cmd) !! k = Some v -> v = PyNone).
Proof.
  intros H. eexists. split; [exact (init_failure cls argv err H)|].
  cbn [CommandBase.error CommandBase.flags entries].
  repeat split. intros k v. rewrite declared_flags_lookup.
  case_decide; congruence.
Qed.

Lemma tokenizer_failure_captured_witness :
  exists cmd,
    CommandBase.__init__ Examples.scenario ["--nope"] = Return cmd
    /\ CommandBase.error cmd
       = Some (mkGetoptError "option --nope not recognized" "nope").
Proof.
  destruct (tokenizer_failure_captured Examples.scenario ["--nope"]
              (mkGetoptError "option --nope not recognized" "nope") eq_refl)
    as (cmd & Hinit & Herr & _).
  exists cmd. split; assumption.
Defined.

(** C9. For every option table and argument vector, if the tokenizer
    fails then the constructor returns with every declared flag name
    present in the flag map and mapped to the unset sentinel, with no
    other key in it, and with an empty positional-argument sequence. *)
Theorem failure_leaves_flags_unset {R : Type} (cls : CommandBase.Class R)
        (argv : list string) (err : GetoptError) :
  CommandBase.tokenize cls argv = inl err ->
  exists cmd,
    CommandBase.__init__ cls argv = Return cmd
    /\ (forall flag, flag ∈ map fst (CommandBase.optionList cls) ->
          entries (CommandBase.flags cmd) !! flag = Some Spec.unset)
    /\ (forall k, k ∉ map fst (CommandBase.optionList cls) ->
          entries (CommandBase.flags cmd) !! k = None)
    /\ CommandBase.args cmd = [].
Proof.
  intros H. eexists. split; [exact (init_failure cls argv err H)|].
  cbn [CommandBase.args CommandBase.flags entries].
  split; [|split; [|reflexivity]].
  - intros flag Hflag. rewrite declared_flags_lookup.
    rewrite decide_True; [reflexivity|]. now apply od_make_keys.
  - intros k Hk. rewrite declared_flags_lookup.
    rewrite decide_False; [reflexivity|]. intros Hin. apply Hk.
    now apply od_make_keys.
Qed.

Lemma failure_leaves_flags_unset_witness :
  exists cmd,
    CommandBase.__init__ Examples.scenario ["-h"; "-f"] = Return cmd
    /\ entries (CommandBase.flags cmd) !! "help" = Some PyNone
    /\ entries (CommandBase.flags cmd) !! "file" = Some PyNone
    /\ CommandBase.args cmd = [].
Proof.
  destruct (failure_leaves_flags_unset Examples.scenario ["-h"; "-f"]
              (mkGetoptError "option -f requires argument" "f") eq_refl)
    as (cmd & Hinit & Hset & _ & Hargs).
  exists cmd. split; [exact Hinit|].
  split; [|split; [|exact Hargs]]; apply Hset; cbn; set_solver.
Defined.

(** ** Successful parses *)

(** C6. For every option table T and every argument vector V that
    contains no option tokens, parsing succeeds (the constructor returns
    and records no error) with the positional-argument sequence equal to
    V and every declared flag mapped to the unset sentinel. *)
Theorem no_options_all_positional {R : Type} (cls : CommandBase.Class R)
        (V : list string) :
  Spec.no_option_tokens V ->
  exists cmd,
    CommandBase.__init__ cls V = Return cmd
    /\ CommandBase.error cmd = None
    /\ CommandBase.args cmd = V
    /\ (forall flag, flag ∈ map fst (CommandBase.optionList cls) ->
          entries (CommandBase.flags cmd) !! flag = Some Spec.unset).
Proof.
  intros HV.
  assert (CommandBase.tokenize cls V = inr ([], V)) as Htok
    by now apply getopt_no_option_tokens.
  destruct (init_success cls V [] V Htok) as (d & Hinit & _ & Hin).
  eexists. split; [exact Hinit|].
  cbn [CommandBase.error CommandBase.args CommandBase.flags entries].
  repeat split. intros flag Hflag.
  apply od_make_keys in Hflag.
  apply list_elem_of_fmap in Hflag as ([flag' val] & -> & Hmem).
  cbn [fst]. now rewrite (Hin flag' val Hmem).
Qed.

Lemma no_options_all_positional_witness :
  exists cmd,
    CommandBase.__init__ Examples.scenario ["build"; "out.txt"; "-"] = Return cmd
    /\ CommandBase.args cmd = ["build"; "out.txt"; "-"]
    /\ entries (CommandBase.flags cmd) !! "file" = Some PyNone.
Proof.
  destruct (no_options_all_positional Examples.scenario
              ["build"; "out.txt"; "-"])
    as (cmd & Hinit & _ & Hargs & Hunset).
  - repeat (apply List.Forall_cons;
            [intros H; first [reflexivity | discriminate H]|]).
    apply List.Forall_nil.
  - exists cmd. split; [exact Hinit|]. split; [exact Hargs|].
    apply Hunset. cbn. set_solver.
Defined.

(** C10. If two or more declared options share the same short letter,
    a single occurrence of that short option (a single-dash token with
    the letter) among the tokens of the command line sets the flag-map
    entry of every declared option bearing that letter, since the scan of
    the table does not stop at the first match: each such option is given
    the value of a token that spells it (boolean true, or the token's
    value when the option takes one), which is that occurrence when no
    other token spells the option. *)
Theorem shared_short_letter_sets_all {R : Type} (cls : CommandBase.Class R)
        (argv : list string) (opts : getopt.tokens) (rest : list string)
        (letter value : string) :
  CommandBase.tokenize cls argv = inr (opts, rest) ->
  ("-" +:+ letter, value) ∈ opts ->
  Spec.short_form ("-" +:+ letter) = true ->
  exists cmd,
    CommandBase.__init__ cls argv = Return cmd
    /\ forall flag val,
        (flag, val) ∈ OrderedDict.items (CommandBase.table cls) ->
        short val = letter ->
        exists opt,
          opt ∈ opts
          /\ Spec.spells (fst opt) flag val = true
          /\ entries (CommandBase.flags cmd) !! flag
             = Some (if Spec.has_placeholder val
                     then PyStr (snd opt) else PyBool true)
          /\ entries (CommandBase.flags cmd) !! flag <> Some Spec.unset.
Proof.
  intros Htok Hocc Hshort.
  destruct (init_success cls argv opts rest Htok) as (d & Hinit & _ & Hin).
  eexists. split; [exact Hinit|].
  cbn [CommandBase.flags entries].
  intros flag val Hmem Hletter.
  apply getopt_tokens_ok in Htok as [Hok _].
  assert (forall opt, opt ∈ opts -> token_ok opt) as Hall
    by (intros opt Ho; eapply Forall_forall in Hok; eauto).
  destruct (entry_after_matched opts flag val (Some PyNone))
    as (opt & Hopt & Hm & Hval).
  { exists ("-" +:+ letter, value). split; [exact Hocc|].
    rewrite matches_spells by auto.
    unfold Spec.spells. cbn [fst]. rewrite Hshort, Hletter.
    now rewrite String.eqb_refl. }
  exists opt. split; [exact Hopt|].
  split; [now rewrite <- matches_spells by auto|].
  rewrite (Hin flag val Hmem), Hval.
  unfold CommandBase.matched_value. rewrite takes_arg_has_placeholder.
  split; [reflexivity|].
  destruct (takes_arg val); discriminate.
Qed.

Lemma shared_short_letter_sets_all_witness :
  exists cmd,
    CommandBase.__init__ Examples.shared_letter ["-v"] = Return cmd
    /\ entries (CommandBase.flags cmd) !! "verbose" = Some (PyBool true)
    /\ entries (CommandBase.flags cmd) !! "version" = Some (PyBool true).
Proof.
  destruct (shared_short_letter_sets_all Examples.shared_letter ["-v"]
              [("-v", EmptyString)] [] "v" EmptyString)
    as (cmd & Hinit & Hall).
  - reflexivity.
  - cbn. set_solver.
  - reflexivity.
  - exists cmd. split; [exact Hinit|]. split.
    + destruct (Hall "verbose" Examples.verbose_opt) as (opt & _ & _ & Hv & _);
        [cbn; set_solver | reflexivity | exact Hv].
    + destruct (Hall "version" Examples.version_opt) as (opt & _ & _ & Hv & _);
        [cbn; set_solver | reflexivity | exact Hv].
Defined.

(** ** Attribute access on the flag map *)

Lemma entry_after_is_Some (opts : getopt.tokens) (flag : string) (val : OptVal)
      (cur : option PyVal) :
  is_Some cur -> is_Some (entry_after opts flag val cur).
Proof.
  unfold entry_after. revert cur.
  induction opts as [|opt opts IH]; intros cur Hcur; [exact Hcur|].
  cbn [fold_left]. apply IH. now destruct (matches _ _ _).
Qed.

(** C7, as the code behaves. For every option table, on the flag map of
    a command parsed without error, and for every name that normal
    attribute lookup does not find on the dictionary (a name the [dict]
    type does not itself provide): attribute-style access of a name that
    is not a declared flag raises the [OptionError] "Option '<name>' is not
    defined", while access of a declared name returns its stored value. *)
Theorem flag_attribute_access {R : Type} (provided : string -> option PyVal)
        (cls : CommandBase.Class R)
        (argv : list string) (cmd : CommandBase.t R) (name : string) :
  CommandBase.__init__ cls argv = Return cmd ->
  CommandBase.error cmd = None ->
  provided name = None ->
  (name ∉ map fst (CommandBase.optionList cls) ->
   getattr provided (CommandBase.flags cmd) name
   = Raise (OptionError ("Option '" +:+ name +:+ "' is not defined")))
  /\ (name ∈ map fst (CommandBase.optionList cls) ->
      exists v, entries (CommandBase.flags cmd) !! name = Some v
                /\ getattr provided (CommandBase.flags cmd) name = Return v).
Proof.
  intros Hinit Herr Hprovided.
  destruct (init_no_error cls argv cmd Hinit Herr) as (opts & Htok).
  destruct (init_success cls argv opts _ Htok) as (d & Hd & Hout & Hin).
  rewrite Hd in Hinit. injection Hinit as <-.
  unfold getattr. rewrite Hprovided.
  cbn [CommandBase.flags entries]. unfold dictobject.__getattr__.
  split.
  - intros Hname. rewrite Hout; [reflexivity|].
    intros Hkey. apply Hname. now apply od_make_keys.
  - intros Hname. apply od_make_keys in Hname.
    apply list_elem_of_fmap in Hname as ([flag val] & -> & Hmem).
    cbn [fst].
    destruct (entry_after_is_Some opts flag val (Some PyNone)) as [v Hv];
      [now eexists|].
    exists v. rewrite (Hin flag val Hmem), Hv. auto.
Qed.

Lemma flag_attribute_access_witness :
  exists cmd,
    CommandBase.__init__ Examples.scenario ["-f"; "out.txt"; "extra"]
    = Return cmd
    /\ getattr dict_lookup (CommandBase.flags cmd) "verbose"
       = Raise (OptionError "Option 'verbose' is not defined")
    /\ exists v, getattr dict_lookup (CommandBase.flags cmd) "file" = Return v.
Proof.
  destruct (init_returns Examples.scenario ["-f"; "out.txt"; "extra"])
    as [cmd Hinit].
  exists cmd. split; [exact Hinit|].
  assert (CommandBase.error cmd = None) as Herr.
  { vm_compute in Hinit. injection Hinit as <-. reflexivity. }
  split.
  - apply (flag_attribute_access dict_lookup Examples.scenario
             ["-f"; "out.txt"; "extra"] cmd "verbose" Hinit Herr eq_refl).
    cbn. rewrite !not_elem_of_cons. repeat split; try discriminate.
    apply not_elem_of_nil.
  - destruct (flag_attribute_access dict_lookup Examples.scenario
                ["-f"; "out.txt"; "extra"] cmd "file" Hinit Herr eq_refl)
      as [_ H].
    destruct H as (v & _ & Hv); [cbn; set_solver|].
    now exists v.
Defined.

(** C7 as the specification states it fails in three ways. After a
    successful parse, the undeclared name [keys] does not raise: normal
    lookup finds the method of [dict]. A declared flag named [update] is
    hidden by the method of that name: access does not return the stored
    value. And after a tokenizer failure the flag map is still a plain
    [dict], so access of the declared name [help] raises [AttributeError]
    instead of returning the stored value. *)
Lemma flag_attribute_access_not_as_claimed :
  (exists cmd,
      CommandBase.__init__ Examples.scenario ["-h"] = Return cmd
      /\ CommandBase.error cmd = None
      /\ ("keys" ∉ map fst (CommandBase.optionList Examples.scenario))
      /\ getattr dict_lookup (CommandBase.flags cmd) "keys"
         = Return (PyObj "built-in method keys"))
  /\ (exists cmd,
         CommandBase.__init__ shadowing ["-u"] = Return cmd
         /\ CommandBase.error cmd = None
         /\ entries (CommandBase.flags cmd) !! "update" = Some (PyBool true)
         /\ getattr dict_lookup (CommandBase.flags cmd) "update"
            = Return (PyObj "built-in method update"))
  /\ (exists cmd,
         CommandBase.__init__ Examples.scenario ["--nope"] = Return cmd
         /\ entries (CommandBase.flags cmd) !! "help" = Some PyNone
         /\ getattr dict_lookup (CommandBase.flags cmd) "help"
            = Raise (AttributeError "'dict' object has no attribute 'help'")).
Proof.
  split; [|split].
  - destruct (init_success Examples.scenario ["-h"] [("-h", EmptyString)] []
                eq_refl) as (d & Hinit & _).
    eexists. split; [exact Hinit|]. split; [reflexivity|]. split; [|reflexivity].
    cbn. rewrite !not_elem_of_cons. repeat split; try discriminate.
    apply not_elem_of_nil.
  - destruct (init_success shadowing ["-u"] [("-u", EmptyString)] [] eq_refl)
      as (d & Hinit & _ & Hin).
    eexists. split; [exact Hinit|]. split; [reflexivity|].
    split; [|reflexivity].
    cbn [CommandBase.flags entries].
    rewrite (Hin "update" (mkOpt "u" None "update the index")); [reflexivity|].
    cbn. set_solver.
  - eexists. split.
    + exact (init_failure Examples.scenario ["--nope"]
               (mkGetoptError "option --nope not recognized" "nope") eq_refl).
    + split; [|reflexivity].
      cbn [CommandBase.flags entries].
      rewrite declared_flags_lookup. reflexivity.
Qed.

(** ** Dispatch *)

(** C1. For every command instance, [run()] has exactly three outcomes,
    tried in order: with no positional argument it prints the usage text
    and raises [CommandExit(2)]; otherwise, if the first positional
    argument is a key of the command registry, it calls the registered
    entry point with the remaining positional arguments as its argument
    vector and its result is that call's; otherwise it prints that the
    command does not exist and raises [CommandExit(1)]. *)
Theorem run_three_outcomes {R : Type} (self : CommandBase.t R) :
  (CommandBase.args self = [] ->
   CommandBase.run self = ([CommandBase.usage self], Raise (CommandExit 2)))
  /\ (forall name rest entry,
         CommandBase.args self = name :: rest ->
         CommandBase.commands (CommandBase.class self) !! name = Some entry ->
         CommandBase.run self = entry rest)
  /\ (forall name rest,
         CommandBase.args self = name :: rest ->
         CommandBase.commands (CommandBase.class self) !! name = None ->
         CommandBase.run self
         = (["error: command " +:+ name +:+ " does not exist"],
            Raise (CommandExit 1))).
Proof.
  unfold CommandBase.run. repeat split.
  - intros ->. reflexivity.
  - intros name rest entry -> ->. reflexivity.
  - intros name rest -> ->. reflexivity.
Qed.

Lemma run_three_outcomes_witness :
  CommandBase.run Examples.dispatching = (["-n"], Return PyNone).
Proof.
  destruct (run_three_outcomes Examples.dispatching) as (_ & Hcall & _).
  apply (Hcall "build" ["-n"] Examples.build); reflexivity.
Defined.

(** ** The process-level entry point *)

(** C8. The convenience entry point constructs the command class from
    the process argument vector without the program name; if the instance
    carries a parse error it prints [error: <message>] and exits with
    status 1, otherwise it calls [run()] and exits with the value [run()]
    returned: the process status is 0 when that value is [None] and the
    value itself when it is an integer a process status can hold (0 to
    255). *)
Theorem run_and_exit_outcomes (command_class : CommandClass)
        (sys_argv : list string) (out : list string)
        (cmd : instance command_class) :
  new command_class (tail sys_argv) = (out, Return cmd) ->
  (forall err,
      error_of command_class cmd = Some err ->
      run_and_exit command_class sys_argv
      = (out ++ ["error: " +:+ msg err], Raise (SystemExit (PyInt 1)))
      /\ exit_status (SystemExit (PyInt 1)) = 1%Z)
  /\ (error_of command_class cmd = None ->
      forall out' status,
        run_of command_class cmd = (out', Return status) ->
        run_and_exit command_class sys_argv
        = (out ++ out', Raise (SystemExit status))
        /\ (status = PyNone -> exit_status (SystemExit status) = 0%Z)
        /\ (forall z, status = PyInt z -> (0 <= z < 256)%Z ->
                      exit_status (SystemExit status) = z)).
Proof.
  intros Hnew. unfold run_and_exit. rewrite Hnew. cbn [bind]. split.
  - intros err ->. split; reflexivity.
  - intros -> out' status Hrun. cbn [bind]. rewrite Hrun. cbn [bind sys_exit raise].
    rewrite app_nil_r. repeat split.
    + now intros ->.
    + intros z -> Hz. cbn [exit_status]. now apply Z.mod_small.
Qed.

Lemma run_and_exit_outcomes_witness :
  run_and_exit (base_class Examples.scenario) ["prog"; "--nope"]
  = (["error: option --nope not recognized"], Raise (SystemExit (PyInt 1)))
  /\ run_and_exit (base_class Examples.scenario) ["prog"; "build"; "-n"]
     = (["-n"], Raise (SystemExit PyNone))
  /\ exit_status (SystemExit PyNone) = 0%Z.
Proof.
  split; [|split].
  - pose proof (init_failure Examples.scenario ["--nope"]
                  (mkGetoptError "option --nope not recognized" "nope")
                  eq_refl) as Hcmd.
    edestruct (run_and_exit_outcomes (base_class Examples.scenario)
                 ["prog"; "--nope"] []) as [Herr _].
    + cbn [new base_class tail lift]. rewrite Hcmd. reflexivity.
    + apply (Herr _ eq_refl).
  - destruct (init_success Examples.scenario ["build"; "-n"] []
                ["build"; "-n"] eq_refl) as (d & Hcmd & _).
    edestruct (run_and_exit_outcomes (base_class Examples.scenario)
                 ["prog"; "build"; "-n"] []) as [_ Hrun].
    + cbn [new base_class tail lift]. rewrite Hcmd. reflexivity.
    + apply (Hrun eq_refl ["-n"] PyNone eq_refl).
  - reflexivity.
Defined.

(** An exception raised by [run()], such as the [CommandExit] of the
    dispatcher, is not caught by [run_and_exit]. *)
Lemma run_and_exit_propagates (command_class : CommandClass)
      (sys_argv : list string) (out out' : list string)
      (cmd : instance command_class) (e : PyExn) :
  new command_class (tail sys_argv) = (out, Return cmd) ->
  error_of command_class cmd = None ->
  run_of command_class cmd = (out', Raise e) ->
  run_and_exit command_class sys_argv = (out ++ out', Raise e).
Proof.
  intros Hnew Herr Hrun. unfold run_and_exit.
  rewrite Hnew. cbn [bind]. rewrite Herr. cbn [bind]. now rewrite Hrun.
Qed.

(** ** The scenarios of the specification *)

Example scenario_parse :
  exists cmd,
    CommandBase.__init__ Examples.scenario ["-f"; "out.txt"; "extra"]
    = Return cmd
    /\ CommandBase.error cmd = None
    /\ entries (CommandBase.flags cmd) !! "help" = Some PyNone
    /\ entries (CommandBase.flags cmd) !! "file" = Some (PyStr "out.txt")
    /\ CommandBase.args cmd = ["extra"].
Proof.
  destruct (init_success Examples.scenario ["-f"; "out.txt"; "extra"]
              [("-f", "out.txt")] ["extra"] eq_refl) as (d & Hinit & _ & Hin).
  eexists. split; [exact Hinit|].
  cbn [CommandBase.error CommandBase.flags CommandBase.args entries].
  repeat split.
  - rewrite (Hin "help" Examples.help_opt); [reflexivity|]. cbn. set_solver.
  - rewrite (Hin "file" Examples.file_opt); [reflexivity|]. cbn. set_solver.
Qed.

Example scenario_usage :
  exists cmd,
    CommandBase.__init__ Examples.scenario [] = Return cmd
    /\ CommandBase.run cmd
       = (["usage: command [options]" +:+ nl +:+ nl +:+ "Options:" +:+ nl
           +:+ "-h, --help                show help" +:+ nl
           +:+ "-f <path>, --file=<path>  use file" +:+ nl],
          Raise (CommandExit 2)).
Proof.
  destruct (init_success Examples.scenario [] [] [] eq_refl)
    as (d & Hinit & _).
  eexists. split; [exact Hinit|]. reflexivity.
Qed.

(** * Further properties of the code *)

(** ** Parent flags *)

(** X1. Registering a parent flag stores the value under the given name
    and changes nothing else: the other registered names keep their
    values, and the instance's own error, flags, positional arguments and
    usage, hence what [run()] does, are untouched. *)
Theorem registerParentFlag_lookup {R : Type} (self : CommandBase.t R)
        (optionName : string) (value : PyVal) :
  let self' := CommandBase.registerParentFlag self optionName value in
  CommandBase.parentFlags self' !! optionName = Some value
  /\ (forall other, other <> optionName ->
        CommandBase.parentFlags self' !! other
        = CommandBase.parentFlags self !! other)
  /\ CommandBase.error self' = CommandBase.error self
  /\ CommandBase.flags self' = CommandBase.flags self
  /\ CommandBase.args self' = CommandBase.args self
  /\ CommandBase.usage self' = CommandBase.usage self
  /\ CommandBase.run self' = CommandBase.run self.
Proof.
  cbv zeta. unfold CommandBase.registerParentFlag.
  cbn [CommandBase.parentFlags CommandBase.error CommandBase.flags
       CommandBase.args CommandBase.usage].
  split; [apply lookup_insert_eq|]. split.
  - intros other Hne. apply lookup_insert_ne. congruence.
  - repeat split.
Qed.

Lemma registerParentFlag_lookup_witness :
  CommandBase.parentFlags
    (CommandBase.registerParentFlag
       (CommandBase.registerParentFlag Examples.dispatching
          "version" (PyBool true))
       "debug" PyNone) !! "version" = Some (PyBool true).
Proof.
  destruct (registerParentFlag_lookup
              (CommandBase.registerParentFlag Examples.dispatching
                 "version" (PyBool true)) "debug" PyNone)
    as (_ & Hother & _).
  rewrite (Hother "version"); [|discriminate].
  apply (registerParentFlag_lookup Examples.dispatching "version" (PyBool true)).
Defined.

(** X2. Registering the same name again replaces the earlier value, and
    registrations under different names can be made in either order. *)
Theorem registerParentFlag_compose {R : Type} (self : CommandBase.t R)
        (n1 n2 : string) (v1 v2 : PyVal) :
  CommandBase.registerParentFlag
    (CommandBase.registerParentFlag self n1 v1) n1 v2
  = CommandBase.registerParentFlag self n1 v2
  /\ (n1 <> n2 ->
      CommandBase.registerParentFlag
        (CommandBase.registerParentFlag self n1 v1) n2 v2
      = CommandBase.registerParentFlag
          (CommandBase.registerParentFlag self n2 v2) n1 v1).
Proof.
  unfold CommandBase.registerParentFlag.
  cbn [CommandBase.parentFlags CommandBase.error CommandBase.flags
       CommandBase.args CommandBase.usage CommandBase.class
       CommandBase.self_optionList].
  split.
  - now rewrite insert_insert_eq.
  - intros Hne. f_equal. apply insert_insert_ne. congruence.
Qed.

Lemma registerParentFlag_compose_witness :
  CommandBase.registerParentFlag
    (CommandBase.registerParentFlag Examples.dispatching "a" PyNone)
    "b" (PyInt 1)
  = CommandBase.registerParentFlag
      (CommandBase.registerParentFlag Examples.dispatching "b" (PyInt 1))
      "a" PyNone.
Proof.
  apply (registerParentFlag_compose Examples.dispatching "a" "b"
           PyNone (PyInt 1)).
  discriminate.
Defined.

(** ** The entry point, composed with the constructor *)

(** X4. [run_and_exit] never returns to its caller: whatever the class
    and the argument vector, it ends by raising ([SystemExit], or an
    exception that the constructor or [run()] raised). *)
Theorem run_and_exit_never_returns (command_class : CommandClass)
        (sys_argv : list string) :
  exists out e, run_and_exit command_class sys_argv = (out, Raise e).
Proof.
  unfold run_and_exit.
  destruct (new command_class (tail sys_argv)) as [o [cmd|e]];
    cbn [bind]; [|eauto].
  destruct (error_of command_class cmd) as [err|]; cbn; [eauto|].
  destruct (run_of command_class cmd) as [o' [status|e]]; cbn; eauto.
Qed.

(** X5. With a command that keeps the inherited constructor and [run()],
    an argument vector the tokenizer rejects makes [run_and_exit] print
    [error: <message>] with the tokenizer's message, print nothing else,
    and exit with status 1; the program name is not parsed. *)
Theorem run_and_exit_parse_error (cls : CommandBase.Class PyVal)
        (prog : string) (argv : list string) (err : GetoptError) :
  CommandBase.tokenize cls argv = inl err ->
  run_and_exit (base_class cls) (prog :: argv)
  = (["error: " +:+ msg err], Raise (SystemExit (PyInt 1)))
  /\ exit_status (SystemExit (PyInt 1)) = 1%Z.
Proof.
  intros H. split; [|reflexivity]. unfold run_and_exit.
  cbn [new base_class tail lift]. rewrite (init_failure cls argv err H).
  reflexivity.
Qed.

Lemma run_and_exit_parse_error_witness :
  run_and_exit (base_class Examples.scenario) ["prog"; "-f"]
  = (["error: option -f requires argument"], Raise (SystemExit (PyInt 1))).
Proof.
  apply (run_and_exit_parse_error Examples.scenario "prog" ["-f"]
           (mkGetoptError "option -f requires argument" "f")).
  reflexivity.
Defined.

(** X6. The exits of the dispatcher are not caught by [run_and_exit]:
    with the inherited [run()], a command line without positional
    arguments prints the usage text and lets [CommandExit(2)] through, and
    an unregistered command name prints the error line and lets
    [CommandExit(1)] through; an uncaught exception ends the process with
    status 1 in both cases. *)
Theorem run_and_exit_dispatcher_exits (cls : CommandBase.Class PyVal)
        (prog : string) (argv : list string) (opts : getopt.tokens) :
  (CommandBase.tokenize cls argv = inr (opts, []) ->
   run_and_exit (base_class cls) (prog :: argv)
   = ([CommandBase.build_usage cls (CommandBase.table cls)
         (CommandBase.opthelp (CommandBase.declared cls))],
      Raise (CommandExit 2))
   /\ exit_status (CommandExit 2) = 1%Z)
  /\ (forall name rest,
         CommandBase.tokenize cls argv = inr (opts, name :: rest) ->
         CommandBase.commands cls !! name = None ->
         run_and_exit (base_class cls) (prog :: argv)
         = (["error: command " +:+ name +:+ " does not exist"],
            Raise (CommandExit 1))
         /\ exit_status (CommandExit 1) = 1%Z).
Proof.
  split.
  - intros H. split; [|reflexivity].
    destruct (init_success cls argv opts [] H) as (d & Hinit & _).
    unfold run_and_exit. cbn [new base_class tail lift]. rewrite Hinit.
    reflexivity.
  - intros name rest H Hcmd. split; [|reflexivity].
    destruct (init_success cls argv opts (name :: rest) H) as (d & Hinit & _).
    unfold run_and_exit. cbn [new base_class tail lift]. rewrite Hinit.
    cbn [bind lift error_of run_of base_class CommandBase.error].
    unfold CommandBase.run. cbn [CommandBase.args CommandBase.class].
    rewrite Hcmd. reflexivity.
Qed.

Lemma run_and_exit_dispatcher_exits_witness :
  run_and_exit (base_class Examples.scenario) ["prog"; "-h"; "deploy"]
  = (["error: command deploy does not exist"], Raise (CommandExit 1))
  /\ exists usage,
      run_and_exit (base_class Examples.scenario) ["prog"; "-h"]
      = ([usage], Raise (CommandExit 2)).
Proof.
  split.
  - destruct (run_and_exit_dispatcher_exits Examples.scenario "prog"
                ["-h"; "deploy"] [("-h", EmptyString)]) as [_ Hunknown].
    apply (Hunknown "deploy" []); reflexivity.
  - eexists.
    destruct (run_and_exit_dispatcher_exits Examples.scenario "prog"
                ["-h"] [("-h", EmptyString)]) as [Husage _].
    apply Husage. reflexivity.
Defined.

(** ** The constructor on every argument vector *)

(** X7. The constructor never raises: the tokens of the tokenizer are at
    least two characters long, so the index [opt[0][1]] of the matching
    loop is always in range. The usage text, the table and the (empty)
    parent-flag registry of the instance do not depend on the argument
    vector, and are the same after a tokenizer failure. *)
Theorem constructor_always_returns {R : Type} (cls : CommandBase.Class R)
        (argv : list string) :
  exists cmd,
    CommandBase.__init__ cls argv = Return cmd
    /\ CommandBase.usage cmd
       = CommandBase.build_usage cls (CommandBase.table cls)
           (CommandBase.opthelp (CommandBase.declared cls))
    /\ CommandBase.self_optionList cmd = OrderedDict.make (CommandBase.optionList cls)
    /\ CommandBase.parentFlags cmd = ∅
    /\ CommandBase.class cmd = cls.
Proof.
  destruct (CommandBase.tokenize cls argv) as [err|[opts rest]] eqn:H.
  - eexists. split; [exact (init_failure cls argv err H)|]. repeat split.
  - destruct (init_success cls argv opts rest H) as (d & Hinit & _).
    eexists. split; [exact Hinit|]. repeat split.
Qed.

(** X8. The flag map is a [dictobject] exactly when parsing succeeded.
    After a tokenizer failure the constructor has returned before the
    conversion and the flag map is still a plain [dict]: attribute-style
    access of every name that the [dict] type does not itself provide
    raises [AttributeError], for declared flags too. *)
Theorem flags_dictobject_iff_parsed {R : Type}
        (provided : string -> option PyVal) (cls : CommandBase.Class R)
        (argv : list string) (cmd : CommandBase.t R) :
  CommandBase.__init__ cls argv = Return cmd ->
  (CommandBase.error cmd = None
   <-> exists d, CommandBase.flags cmd = DictObject d)
  /\ (forall err name,
         CommandBase.error cmd = Some err ->
         provided name = None ->
         getattr provided (CommandBase.flags cmd) name
         = Raise (AttributeError
                    ("'dict' object has no attribute '" +:+ name +:+ "'"))).
Proof.
  intros Hinit.
  destruct (CommandBase.tokenize cls argv) as [err|[opts rest]] eqn:H.
  - rewrite (init_failure cls argv err H) in Hinit. injection Hinit as <-.
    cbn [CommandBase.error CommandBase.flags]. split.
    + split; [discriminate|]. intros [d Hd]. discriminate Hd.
    + intros err' name _ Hprovided. unfold getattr. now rewrite Hprovided.
  - destruct (init_success cls argv opts rest H) as (d & Hd & _).
    rewrite Hd in Hinit. injection Hinit as <-.
    cbn [CommandBase.error CommandBase.flags]. split.
    + split; [eauto | reflexivity].
    + intros err name Herr. discriminate Herr.
Qed.

Lemma flags_dictobject_iff_parsed_witness :
  exists cmd,
    CommandBase.__init__ Examples.scenario ["--nope"] = Return cmd
    /\ getattr dict_lookup (CommandBase.flags cmd) "help"
       = Raise (AttributeError "'dict' object has no attribute 'help'").
Proof.
  pose proof (init_failure Examples.scenario ["--nope"]
                (mkGetoptError "option --nope not recognized" "nope") eq_refl)
    as Hinit.
  eexists. split; [exact Hinit|].
  destruct (flags_dictobject_iff_parsed dict_lookup Examples.scenario
              ["--nope"] _ Hinit) as [_ Hattr].
  apply (Hattr (mkGetoptError "option --nope not recognized" "nope") "help");
    reflexivity.
Defined.

(** ** Value-taking options *)

Lemma entry_after_last (opts : getopt.tokens) (flag : string) (val : OptVal)
      (cur : option PyVal) :
  Forall token_ok opts ->
  entry_after opts flag val cur
  = match last_spelling opts flag val with
    | Some opt => Some (CommandBase.matched_value val opt)
    | None => cur
    end.
Proof.
  unfold entry_after, last_spelling.
  induction opts as [|opt opts IH] using rev_ind; intros Hok; [reflexivity|].
  apply Forall_app in Hok as [Hopts Hopt].
  rewrite Forall_singleton in Hopt.
  rewrite fold_left_app, rev_unit. cbn [fold_left List.find].
  rewrite <- (matches_spells opt flag val Hopt).
  destruct (matches (fst opt) flag val); [reflexivity|].
  now apply IH.
Qed.

(** X9. For every declared option that takes a value, its flag-map value
    after a successful parse is the string given with the last token that
    spells the option, and the unset sentinel when no token does: a
    repeated option keeps its last value, and the value is stored as
    given, never converted. *)
Theorem value_flag_last_occurrence {R : Type} (cls : CommandBase.Class R)
        (argv : list string) (opts : getopt.tokens) (rest : list string)
        (flag : string) (val : OptVal) :
  CommandBase.tokenize cls argv = inr (opts, rest) ->
  (flag, val) ∈ OrderedDict.items (CommandBase.table cls) ->
  Spec.has_placeholder val = true ->
  exists cmd,
    CommandBase.__init__ cls argv = Return cmd
    /\ entries (CommandBase.flags cmd) !! flag
       = Some (match last_spelling opts flag val with
               | Some opt => PyStr (snd opt)
               | None => Spec.unset
               end).
Proof.
  intros Htok Hmem Hval.
  destruct (init_success cls argv opts rest Htok) as (d & Hinit & _ & Hin).
  eexists. split; [exact Hinit|].
  cbn [CommandBase.flags entries].
  rewrite (Hin flag val Hmem).
  apply getopt_tokens_ok in Htok as [Hok _].
  rewrite (entry_after_last opts flag val _ Hok).
  unfold CommandBase.matched_value.
  rewrite <- takes_arg_has_placeholder, Hval.
  now destruct (last_spelling opts flag val).
Qed.

Lemma value_flag_last_occurrence_witness :
  exists cmd,
    CommandBase.__init__ Examples.scenario
      ["-f"; "a.txt"; "--file=b.txt"; "-fc.txt"; "rest"] = Return cmd
    /\ entries (CommandBase.flags cmd) !! "file" = Some (PyStr "c.txt").
Proof.
  destruct (value_flag_last_occurrence Examples.scenario
              ["-f"; "a.txt"; "--file=b.txt"; "-fc.txt"; "rest"]
              [("-f", "a.txt"); ("--file", "b.txt"); ("-f", "c.txt")]
              ["rest"] "file" Examples.file_opt)
    as (cmd & Hinit & Hval).
  - reflexivity.
  - cbn. set_solver.
  - reflexivity.
  - exists cmd. split; [exact Hinit | exact Hval].
Defined.

(** ** Positional arguments *)

Lemma do_shorts_suffix (optstring shortopts : string) :
  forall (opts : getopt.tokens) (args : list string) opts' args',
    getopt.do_shorts opts optstring shortopts args = inr (opts', args') ->
    args' `suffix_of` args.
Proof.
  induction optstring as [|c optstring IH]; intros opts args opts' args' H.
  - simpl in H. injection H as _ <-. reflexivity.
  - simpl in H.
    destruct (getopt.short_has_arg c shortopts) as [e|[|]]; [discriminate| |].
    + destruct optstring as [|c' optstring'].
      * destruct args as [|optarg args]; [discriminate|].
        injection H as _ <-. now apply suffix_cons_r.
      * injection H as _ <-. reflexivity.
    + now apply IH in H.
Qed.

Lemma do_longs_suffix (opt : string) (longopts : list string)
      (opts : getopt.tokens) (args : list string) opts' args' :
  getopt.do_longs opts opt longopts args = inr (opts', args') ->
  args' `suffix_of` args.
Proof.
  unfold getopt.do_longs. intros H.
  destruct (match Str.split_at "=" opt with
            | Some (l, r) => (l, Some r)
            | None => (opt, None)
            end) as [name optarg].
  destruct (getopt.long_has_args name longopts) as [e|[[|] full]];
    [discriminate| |].
  - destruct optarg as [optarg|].
    + injection H as _ <-. reflexivity.
    + destruct args as [|optarg args]; [discriminate|].
      injection H as _ <-. now apply suffix_cons_r.
  - destruct optarg as [optarg|]; [discriminate|].
    injection H as _ <-. reflexivity.
Qed.

Lemma getopt_loop_suffix (shortopts : string) (longopts : list string) :
  forall (fuel : nat) (opts : getopt.tokens) (args : list string) opts' args',
    getopt.loop fuel opts args shortopts longopts = Some (inr (opts', args')) ->
    args' `suffix_of` args.
Proof.
  induction fuel as [|fuel IH]; intros opts args opts' args' H.
  - destruct args as [|a rest]; simpl in H.
    + injection H as _ <-. reflexivity.
    + destruct (getopt.is_option_token a).
      * destruct (String.eqb a "--"); [|discriminate].
        injection H as _ <-. now apply suffix_cons_r.
      * injection H as _ <-. reflexivity.
  - destruct args as [|a rest]; cbn [getopt.loop] in H.
    + injection H as _ <-. reflexivity.
    + destruct (getopt.is_option_token a).
      * destruct (String.eqb a "--").
        { injection H as _ <-. now apply suffix_cons_r. }
        destruct (if Str.startswith "--" a
                  then getopt.do_longs opts (Str.drop 2 a) longopts rest
                  else getopt.do_shorts opts (Str.drop 1 a) shortopts rest)
          as [e|[opts1 args1]] eqn:Hstep; [discriminate|].
        apply IH in H. apply suffix_cons_r. etransitivity; [exact H|].
        destruct (Str.startswith "--" a);
          [eapply do_longs_suffix | eapply do_shorts_suffix]; exact Hstep.
      * injection H as _ <-. reflexivity.
Qed.

(** X10. The positional arguments of an instance are always a trailing
    part of the argument vector it was built from, in their original
    order: parsing consumes arguments from the front only and never
    reorders, drops or edits what it leaves. *)
Theorem positionals_are_a_suffix {R : Type} (cls : CommandBase.Class R)
        (argv : list string) (cmd : CommandBase.t R) :
  CommandBase.__init__ cls argv = Return cmd ->
  exists consumed, argv = consumed ++ CommandBase.args cmd.
Proof.
  intros Hinit.
  destruct (CommandBase.tokenize cls argv) as [err|[opts rest]] eqn:H.
  - rewrite (init_failure cls argv err H) in Hinit. injection Hinit as <-.
    exists argv. cbn [CommandBase.args]. now rewrite app_nil_r.
  - destruct (init_success cls argv opts rest H) as (d & Hd & _).
    rewrite Hd in Hinit. injection Hinit as <-. cbn [CommandBase.args].
    unfold CommandBase.tokenize in H.
    pose proof (getopt_loop_terminates argv
                  (CommandBase.shortopts (CommandBase.declared cls))
                  (CommandBase.longopts (CommandBase.declared cls))) as Hloop.
    rewrite H in Hloop. now apply getopt_loop_suffix in Hloop.
Qed.

Lemma positionals_are_a_suffix_witness :
  exists cmd consumed,
    CommandBase.__init__ Examples.scenario ["-h"; "--"; "-f"; "x"] = Return cmd
    /\ ["-h"; "--"; "-f"; "x"] = consumed ++ CommandBase.args cmd.
Proof.
  destruct (init_success Examples.scenario ["-h"; "--"; "-f"; "x"]
              [("-h", EmptyString)] ["-f"; "x"] eq_refl) as (d & Hinit & _).
  eexists.
  destruct (positionals_are_a_suffix Examples.scenario
              ["-h"; "--"; "-f"; "x"] _ Hinit) as [consumed Hc].
  exists consumed. split; [exact Hinit | exact Hc].
Defined.

Lemma getopt_first_positional (a : string) (rest : list string)
      (shortopts : string) (longopts : list string) :
  (Str.startswith "-" a = true -> a = "-") ->
  getopt.getopt (a :: rest) shortopts longopts = inr ([], a :: rest).
Proof.
  intros Ha. unfold getopt.getopt.
  assert (getopt.is_option_token a = false) as Hno.
  { unfold getopt.is_option_token.
    destruct (Str.startswith "-" a); [|reflexivity].
    now rewrite (Ha eq_refl). }
  cbn [length getopt.loop]. now rewrite Hno.
Qed.

Lemma unset_when_no_tokens {R : Type} (cls : CommandBase.Class R)
      (argv rest : list string) :
  CommandBase.tokenize cls argv = inr ([], rest) ->
  exists d,
    CommandBase.__init__ cls argv
    = Return {| CommandBase.class := cls; CommandBase.error := None;
                CommandBase.flags := DictObject d;
                CommandBase.args := rest; CommandBase.parentFlags := ∅;
                CommandBase.usage :=
                  CommandBase.build_usage cls (CommandBase.table cls)
                    (CommandBase.opthelp (CommandBase.declared cls));
                CommandBase.self_optionList := CommandBase.table cls |}
    /\ forall flag, flag ∈ map fst (CommandBase.optionList cls) ->
                    d !! flag = Some PyNone.
Proof.
  intros Htok.
  destruct (init_success cls argv [] rest Htok) as (d & Hinit & _ & Hin).
  exists d. split; [exact Hinit|]. intros flag Hflag.
  apply od_make_keys in Hflag.
  apply list_elem_of_fmap in Hflag as ([flag' val] & -> & Hmem).
  cbn [fst]. now rewrite (Hin flag' val Hmem).
Qed.

(** X11. Parsing stops at the first argument that is not an option
    token: when the argument vector begins with such an argument, the
    whole vector becomes the positional arguments, later arguments that
    look like options included, and every declared flag stays unset. *)
Theorem first_positional_stops_parsing {R : Type} (cls : CommandBase.Class R)
        (a : string) (rest : list string) :
  (Str.startswith "-" a = true -> a = "-") ->
  exists cmd,
    CommandBase.__init__ cls (a :: rest) = Return cmd
    /\ CommandBase.error cmd = None
    /\ CommandBase.args cmd = a :: rest
    /\ (forall flag, flag ∈ map fst (CommandBase.optionList cls) ->
          entries (CommandBase.flags cmd) !! flag = Some Spec.unset).
Proof.
  intros Ha.
  destruct (unset_when_no_tokens cls (a :: rest) (a :: rest))
    as (d & Hinit & Hunset).
  { now apply getopt_first_positional. }
  eexists. split; [exact Hinit|]. repeat split. exact Hunset.
Qed.

Lemma first_positional_stops_parsing_witness :
  exists cmd,
    CommandBase.__init__ Examples.scenario ["build"; "-h"; "--file=x"]
    = Return cmd
    /\ CommandBase.args cmd = ["build"; "-h"; "--file=x"]
    /\ entries (CommandBase.flags cmd) !! "help" = Some PyNone.
Proof.
  destruct (first_positional_stops_parsing Examples.scenario "build"
              ["-h"; "--file=x"]) as (cmd & Hinit & _ & Hargs & Hunset).
  - intros H. discriminate H.
  - exists cmd. split; [exact Hinit|]. split; [exact Hargs|].
    apply Hunset. cbn. set_solver.
Defined.

(** X12. A leading [--] ends option parsing and is itself dropped: the
    arguments after it are the positional arguments, whatever they look
    like, no flag is set and there is no error. *)
Theorem double_dash_ends_options {R : Type} (cls : CommandBase.Class R)
        (rest : list string) :
  exists cmd,
    CommandBase.__init__ cls ("--" :: rest) = Return cmd
    /\ CommandBase.error cmd = None
    /\ CommandBase.args cmd = rest
    /\ Forall (fun flag => entries (CommandBase.flags cmd) !! flag
                           = Some Spec.unset)
              (map fst (CommandBase.optionList cls)).
Proof.
  destruct (unset_when_no_tokens cls ("--" :: rest) rest)
    as (d & Hinit & Hunset).
  { reflexivity. }
  eexists. split; [exact Hinit|]. repeat split.
  apply Forall_forall. intros flag Hflag. now apply Hunset.
Qed.

(** X13. A subcommand receives everything after its name, untouched:
    when the argument vector begins with a registered command name (not
    an option token), constructing the command and calling [run()] calls
    the registered entry point with the rest of the vector, options
    included, and prints nothing of its own. *)
Theorem subcommand_gets_remaining_arguments {R : Type}
        (cls : CommandBase.Class R) (name : string) (rest : list string)
        (entry : list string -> Eff R) :
  (Str.startswith "-" name = true -> name = "-") ->
  CommandBase.commands cls !! name = Some entry ->
  exists cmd,
    CommandBase.__init__ cls (name :: rest) = Return cmd
    /\ CommandBase.run cmd = entry rest.
Proof.
  intros Hname Hentry.
  destruct (unset_when_no_tokens cls (name :: rest) (name :: rest))
    as (d & Hinit & _).
  { now apply getopt_first_positional. }
  eexists. split; [exact Hinit|].
  unfold CommandBase.run. cbn [CommandBase.args CommandBase.class].
  now rewrite Hentry.
Qed.

Lemma subcommand_gets_remaining_arguments_witness :
  exists cmd,
    CommandBase.__init__ Examples.scenario ["build"; "-n"; "--nope"]
    = Return cmd
    /\ CommandBase.run cmd = (["-n"; "--nope"], Return PyNone).
Proof.
  apply (subcommand_gets_remaining_arguments Examples.scenario "build"
           ["-n"; "--nope"] Examples.build).
  - intros H. discriminate H.
  - reflexivity.
Defined.

(** ** What the tokenizer is given *)

(** X14. The tokenizer specs follow the table: the long-option list has
    one entry per declared option, in table order, the name followed by
    [=] exactly when the option takes a value; the short-option string is
    the concatenation, in table order, of the short letters, each followed
    by a colon exactly when its option takes a value, and an option
    without a short letter adds nothing to it. *)
Theorem tokenizer_specs_follow_table {R : Type} (cls : CommandBase.Class R) :
  let items := OrderedDict.items (CommandBase.table cls) in
  CommandBase.longopts (CommandBase.declared cls)
  = map (fun item => if Spec.has_placeholder (snd item)
                     then fst item +:+ "=" else fst item) items
  /\ CommandBase.shortopts (CommandBase.declared cls)
     = join (map (fun item =>
                    if Spec.has_short (snd item)
                    then (if Spec.has_placeholder (snd item)
                          then short (snd item) +:+ ":" else short (snd item))
                    else EmptyString) items).
Proof.
  cbv zeta. unfold CommandBase.declared, CommandBase.declare.
  destruct (declare_fold
              (CommandBase.compute_padding
                 (OrderedDict.items (CommandBase.table cls)))
              (OrderedDict.items (CommandBase.table cls))
              {| CommandBase.longopts := []; CommandBase.shortopts := EmptyString;
                 CommandBase.decl_flags := ∅; CommandBase.opthelp := EmptyString |})
    as (Hl & Hs & _ & _).
  rewrite Hl, Hs. cbn [CommandBase.longopts CommandBase.shortopts].
  rewrite string_app_nil_l. split.
  - apply map_ext. intros [flag val]. unfold longspec. cbn [fst snd].
    now rewrite takes_arg_has_placeholder.
  - f_equal. apply map_ext. intros [flag val]. unfold shortspec. cbn [fst snd].
    now rewrite truthy_has_short, takes_arg_has_placeholder.
Qed.

(** ** Alignment of the usage lines *)

Lemma string_length_app (a b : string) :
  String.length (a +:+ b) = String.length a + String.length b.
Proof.
  induction a as [|x a IH]; [reflexivity|].
  rewrite string_app_cons. cbn [String.length]. now rewrite IH.
Qed.

Lemma spaces_length (n : nat) : String.length (Str.spaces n) = n.
Proof. induction n as [|n IH]; [reflexivity|]. cbn. now rewrite IH. Qed.

Lemma ljust_length (s : string) (width : nat) :
  String.length (Str.ljust s width) = Nat.max width (String.length s).
Proof. unfold Str.ljust. rewrite string_length_app, spaces_length. lia. Qed.

Lemma optline_length (flag : string) (val : OptVal) :
  String.length (short val) <= 1 ->
  String.length (CommandBase.optline flag val) = CommandBase.optlen flag val.
Proof.
  intros Hshort. unfold CommandBase.optline, CommandBase.optlen.
  destruct (short val) as [|c [|c' s']] eqn:Es; cbn [Str.truthy andb].
  - destruct (takes_arg val); rewrite !string_length_app; cbn; lia.
  - destruct (takes_arg val); rewrite !string_length_app; cbn; lia.
  - cbn in Hshort. lia.
Qed.

(** X15. The option lines of the usage text are aligned: in a table
    whose short letters have at most one character, the text of every
    option has exactly the width the padding loop computed for it, so the
    justified text never overflows and the description of every option
    starts at the same column, the padding width plus two. *)
Theorem usage_descriptions_aligned {R : Type} (cls : CommandBase.Class R)
        (flag : string) (val : OptVal) :
  let items := OrderedDict.items (CommandBase.table cls) in
  let padding := CommandBase.compute_padding items in
  Forall (fun item => String.length (short (snd item)) <= 1) items ->
  (flag, val) ∈ items ->
  String.length (CommandBase.optline flag val) = CommandBase.optlen flag val
  /\ String.length (CommandBase.optline flag val) <= padding
  /\ exists gap,
      CommandBase.helpline padding flag val
      = CommandBase.optline flag val +:+ Str.spaces gap +:+ desc val +:+ nl
      /\ String.length (CommandBase.optline flag val) + gap = padding + 2.
Proof.
  cbv zeta. intros Hshort Hmem.
  assert (String.length (short val) <= 1) as Hs.
  { eapply Forall_forall in Hshort; [|exact Hmem]. exact Hshort. }
  pose proof (optline_length flag val Hs) as Hlen.
  assert (CommandBase.optlen flag val
          <= CommandBase.compute_padding
               (OrderedDict.items (CommandBase.table cls))) as Hle.
  { rewrite compute_padding_spec, optlen_width_estimate.
    pose proof (padding_bounds_each (OrderedDict.items (CommandBase.table cls)))
      as Hall.
    eapply Forall_forall in Hall; [|exact Hmem]. exact Hall. }
  split; [exact Hlen|]. split; [lia|].
  exists (CommandBase.compute_padding (OrderedDict.items (CommandBase.table cls))
          - String.length (CommandBase.optline flag val) + 2).
  split; [|lia].
  unfold CommandBase.helpline, Str.ljust.
  rewrite !string_app_assoc. f_equal.
  rewrite <- string_app_assoc. f_equal.
  generalize (CommandBase.compute_padding (OrderedDict.items (CommandBase.table cls))
              - String.length (CommandBase.optline flag val)).
  intros n. induction n as [|n IH]; [reflexivity|].
  cbn [Str.spaces Nat.add]. rewrite string_app_cons. now rewrite IH.
Qed.

Lemma usage_descriptions_aligned_witness :
  String.length (CommandBase.optline "help" Examples.help_opt) <= 24
  /\ String.length (CommandBase.optline "file" Examples.file_opt) = 24.
Proof.
  split.
  - destruct (usage_descriptions_aligned Examples.scenario
                "help" Examples.help_opt) as (_ & Hle & _).
    + repeat (apply List.Forall_cons; [cbn; lia|]). apply List.Forall_nil.
    + cbn. set_solver.
    + exact Hle.
  - destruct (usage_descriptions_aligned Examples.scenario
                "file" Examples.file_opt) as (Hlen & _).
    + repeat (apply List.Forall_cons; [cbn; lia|]). apply List.Forall_nil.
    + cbn. set_solver.
    + exact Hlen.
Defined.

(** ** Repeated declarations *)

Lemma od_set_pair (k0 : string) (v0 : OptVal) (d : OrderedDict.t)
      (k : string) (v : OptVal) :
  NoDup (OrderedDict.keys d) ->
  (k, v) ∈ OrderedDict.set k0 v0 d
  <-> if String.eqb k0 k then v = v0 else (k, v) ∈ d.
Proof.
  induction d as [|[k' v'] d IH]; intros Hnd; cbn [OrderedDict.set].
  - rewrite list_elem_of_singleton.
    destruct (String.eqb_spec k0 k) as [->|Hne].
    + split; [now intros [= ->] | now intros ->].
    + split; [intros [= <- _]; congruence | intros H; now apply elem_of_nil in H].
  - cbn [OrderedDict.keys map fst] in Hnd.
    apply NoDup_cons in Hnd as [Hfresh Hnd].
    destruct (String.eqb_spec k' k0) as [->|Hne0].
    + rewrite elem_of_cons.
      destruct (String.eqb_spec k0 k) as [->|Hne].
      * split.
        { intros [[= ->]|Hin]; [reflexivity|].
          exfalso. apply Hfresh. apply list_elem_of_fmap. now exists (k, v). }
        { intros ->. now left. }
      * rewrite elem_of_cons.
        split; (intros [[= <- _]|Hin]; [congruence | now right]).
    + rewrite elem_of_cons, (IH Hnd).
      destruct (String.eqb_spec k0 k) as [->|Hne].
      * split; [intros [[= <- _]|H]; [congruence | exact H] | now right].
      * now rewrite elem_of_cons.
Qed.

Lemma find_app_split {A : Type} (f : A -> bool) (l1 l2 : list A) :
  List.find f (l1 ++ l2)
  = match List.find f l1 with
    | Some x => Some x
    | None => List.find f l2
    end.
Proof.
  induction l1 as [|x l1 IH]; [reflexivity|].
  cbn [app List.find]. now destruct (f x).
Qed.

Lemma od_fold_pair (pairs : list (string * OptVal)) (k : string) (v : OptVal) :
  forall d : OrderedDict.t,
    NoDup (OrderedDict.keys d) ->
    (k, v) ∈ fold_left (fun d kv => OrderedDict.set (fst kv) (snd kv) d) pairs d
    <-> match last_declaration pairs k with
        | Some v' => v = v'
        | None => (k, v) ∈ d
        end.
Proof.
  unfold last_declaration.
  induction pairs as [|[k0 v0] pairs IH]; intros d Hnd; [reflexivity|].
  cbn [fold_left fst snd rev]. rewrite (IH _ (od_set_NoDup k0 v0 d Hnd)).
  rewrite find_app_split.
  destruct (List.find (fun kv => String.eqb (fst kv) k) (rev pairs))
    as [kv|]; [reflexivity|].
  cbn [option_map List.find fst snd]. rewrite (od_set_pair k0 v0 d k v Hnd).
  now destruct (String.eqb k0 k).
Qed.

(** X16. The table the constructor builds from the class attribute has
    every declared name exactly once, and a name declared several times
    carries the short letter, placeholder and description of its last
    declaration. *)
Theorem table_last_declaration_wins {R : Type} (cls : CommandBase.Class R) :
  NoDup (OrderedDict.keys (CommandBase.table cls))
  /\ (forall k, k ∈ OrderedDict.keys (CommandBase.table cls)
                <-> k ∈ map fst (CommandBase.optionList cls))
  /\ (forall k v, (k, v) ∈ OrderedDict.items (CommandBase.table cls)
                  <-> last_declaration (CommandBase.optionList cls) k = Some v).
Proof.
  split; [apply od_make_NoDup|]. split; [intros k; apply od_make_keys|].
  intros k v. unfold CommandBase.table, OrderedDict.make, OrderedDict.items.
  rewrite od_fold_pair by constructor.
  destruct (last_declaration (CommandBase.optionList cls) k) as [v'|].
  - split; [now intros -> | now intros [= ->]].
  - split; [intros H; now apply elem_of_nil in H | discriminate].
Qed.

Lemma table_last_declaration_wins_witness :
  OrderedDict.items (CommandBase.table redeclared)
  = [("level", mkOpt "L" (Some "<n>") "second declaration");
     ("quiet", mkOpt "q" None "say less")]
  /\ ("level", mkOpt "L" (Some "<n>") "second declaration")
     ∈ OrderedDict.items (CommandBase.table redeclared).
Proof.
  split; [reflexivity|].
  apply (table_last_declaration_wins redeclared). reflexivity.
Defined.

(** ** Long options on the command line *)

Lemma prefix_cons (a b : ascii) (p s : string) :
  String.prefix (String a p) (String b s) = Ascii.eqb a b && String.prefix p s.
Proof.
  cbn [String.prefix]. destruct (ascii_dec a b) as [->|Hne].
  - now rewrite Ascii.eqb_refl.
  - apply Ascii.eqb_neq in Hne. now rewrite Hne.
Qed.

Lemma prefix_nil (s : string) : String.prefix EmptyString s = true.
Proof. now destruct s. Qed.

Lemma prefix_refl (s : string) : String.prefix s s = true.
Proof.
  induction s as [|a s IH]; [reflexivity|].
  now rewrite prefix_cons, Ascii.eqb_refl.
Qed.

Lemma prefix_app_r (p s : string) : String.prefix p (p +:+ s) = true.
Proof.
  induction p as [|a p IH]; [apply prefix_nil|].
  now rewrite string_app_cons, prefix_cons, Ascii.eqb_refl.
Qed.

Lemma prefix_before_sep (c : ascii) (name flag : string) :
  occurs c name = false ->
  String.prefix name (flag +:+ String c EmptyString) = String.prefix name flag.
Proof.
  revert flag. induction name as [|a name IH]; intros flag Hname;
    [now rewrite !prefix_nil|].
  cbn [occurs] in Hname. apply orb_false_elim in Hname as [Ha Hname].
  destruct flag as [|b flag].
  - rewrite string_app_nil_l, prefix_cons, Ha. reflexivity.
  - rewrite string_app_cons, !prefix_cons. now rewrite IH.
Qed.

Lemma split_at_absent (c : ascii) (s : string) :
  occurs c s = false -> Str.split_at c s = None.
Proof.
  induction s as [|a s IH]; intros H; [reflexivity|].
  cbn [occurs] in H. apply orb_false_elim in H as [Ha Hs].
  cbn [Str.split_at]. now rewrite Ha, (IH Hs).
Qed.

Lemma split_at_first (c : ascii) (l r : string) :
  occurs c l = false ->
  Str.split_at c (l +:+ String c r) = Some (l, r).
Proof.
  induction l as [|a l IH]; intros H.
  - rewrite string_app_nil_l. cbn [Str.split_at]. now rewrite Ascii.eqb_refl.
  - cbn [occurs] in H. apply orb_false_elim in H as [Ha Hl].
    rewrite string_app_cons. cbn [Str.split_at]. now rewrite Ha, (IH Hl).
Qed.

Lemma last_char_occurs (c : ascii) (s : string) :
  occurs c (s +:+ String c EmptyString) = true.
Proof.
  induction s as [|a s IH].
  - rewrite string_app_nil_l. cbn [occurs]. now rewrite Ascii.eqb_refl.
  - rewrite string_app_cons. cbn [occurs]. rewrite IH. apply orb_true_r.
Qed.

(** The long-option list holds the name of a declared boolean option,
    and the name followed by [=] of a declared value-taking one. *)
Lemma longopts_declared {R : Type} (cls : CommandBase.Class R)
      (flag : string) (val : OptVal) :
  (flag, val) ∈ OrderedDict.items (CommandBase.table cls) ->
  In (if takes_arg val then flag +:+ "=" else flag)
     (CommandBase.longopts (CommandBase.declared cls)).
Proof.
  intros Hmem. unfold CommandBase.declared, CommandBase.declare.
  destruct (declare_fold
              (CommandBase.compute_padding
                 (OrderedDict.items (CommandBase.table cls)))
              (OrderedDict.items (CommandBase.table cls))
              {| CommandBase.longopts := []; CommandBase.shortopts := EmptyString;
                 CommandBase.decl_flags := ∅; CommandBase.opthelp := EmptyString |})
    as (Hl & _).
  rewrite Hl. cbn [CommandBase.longopts app].
  apply in_map_iff. exists (flag, val). split; [reflexivity|].
  now apply list_elem_of_In.
Qed.

Lemma longopts_inv {R : Type} (cls : CommandBase.Class R) (spec : string) :
  In spec (CommandBase.longopts (CommandBase.declared cls)) ->
  exists flag val,
    (flag, val) ∈ OrderedDict.items (CommandBase.table cls)
    /\ spec = (if takes_arg val then flag +:+ "=" else flag).
Proof.
  unfold CommandBase.declared, CommandBase.declare.
  destruct (declare_fold
              (CommandBase.compute_padding
                 (OrderedDict.items (CommandBase.table cls)))
              (OrderedDict.items (CommandBase.table cls))
              {| CommandBase.longopts := []; CommandBase.shortopts := EmptyString;
                 CommandBase.decl_flags := ∅; CommandBase.opthelp := EmptyString |})
    as (Hl & _).
  rewrite Hl. cbn [CommandBase.longopts app]. intros Hin.
  apply in_map_iff in Hin as ([flag val] & <- & Hin).
  exists flag, val. split; [now apply list_elem_of_In | reflexivity].
Qed.

Lemma table_entry_unique {R : Type} (cls : CommandBase.Class R)
      (flag : string) (val val' : OptVal) :
  (flag, val) ∈ OrderedDict.items (CommandBase.table cls) ->
  (flag, val') ∈ OrderedDict.items (CommandBase.table cls) ->
  val = val'.
Proof.
  pose proof (od_make_NoDup (CommandBase.optionList cls)) as Hnd.
  unfold CommandBase.table, OrderedDict.items.
  unfold OrderedDict.keys in Hnd.
  induction (OrderedDict.make (CommandBase.optionList cls)) as [|[k v] d IH];
    intros H1 H2; [now apply elem_of_nil in H1|].
  cbn [map fst] in Hnd. apply NoDup_cons in Hnd as [Hfresh Hnd].
  apply elem_of_cons in H1 as [E1|H1];
    apply elem_of_cons in H2 as [E2|H2]; simplify_eq.
  - reflexivity.
  - exfalso. apply Hfresh. apply list_elem_of_fmap. now exists (k, val').
  - exfalso. apply Hfresh. apply list_elem_of_fmap. now exists (k, val).
  - now apply IH.
Qed.

(** What [long_has_args] answers for the exact name of a declared option
    that contains no [=]. *)
Lemma long_has_args_declared {R : Type} (cls : CommandBase.Class R)
      (flag : string) (val : OptVal) :
  (flag, val) ∈ OrderedDict.items (CommandBase.table cls) ->
  occurs "=" flag = false ->
  getopt.long_has_args flag (CommandBase.longopts (CommandBase.declared cls))
  = inr (takes_arg val, flag).
Proof.
  intros Hmem Hno. unfold getopt.long_has_args.
  pose proof (longopts_declared cls flag val Hmem) as Hin.
  remember (List.filter (Str.startswith flag)
              (CommandBase.longopts (CommandBase.declared cls)))
    as poss eqn:Eposs.
  assert (In (if takes_arg val then flag +:+ "=" else flag) poss) as Hposs.
  { subst poss. apply filter_In. split; [exact Hin|]. unfold Str.startswith.
    destruct (takes_arg val); [apply prefix_app_r | apply prefix_refl]. }
  assert (existsb (String.eqb flag) poss = negb (takes_arg val)) as Hexact.
  { destruct (takes_arg val) eqn:Etakes; cbn [negb].
    - apply not_true_is_false. intros Hex.
      apply existsb_exists in Hex as (spec & Hspec & Heq).
      apply string_eqb_true in Heq. subst spec poss.
      apply filter_In in Hspec as [Hspec _].
      apply longopts_inv in Hspec as (flag' & val' & Hmem' & Hflag).
      destruct (takes_arg val') eqn:E'.
      + rewrite Hflag, last_char_occurs in Hno. discriminate.
      + subst flag'.
        rewrite (table_entry_unique cls flag val val' Hmem Hmem') in Etakes.
        congruence.
    - apply existsb_exists. exists flag. split; [exact Hposs|].
      apply String.eqb_refl. }
  assert (takes_arg val = true ->
          existsb (String.eqb (flag +:+ "=")) poss = true) as Hvalued.
  { intros Etakes. rewrite Etakes in Hposs.
    apply existsb_exists. exists (flag +:+ "="). split; [exact Hposs|].
    apply String.eqb_refl. }
  clear Eposs. destruct poss as [|unique others]; [contradiction|].
  rewrite Hexact. destruct (takes_arg val); cbn [negb]; [|reflexivity].
  now rewrite Hvalued.
Qed.

Lemma getopt_loop_stop (fuel : nat) (opts : getopt.tokens) (V : list string)
      (shortopts : string) (longopts : list string) :
  Spec.no_option_tokens V ->
  getopt.loop fuel opts V shortopts longopts = Some (inr (opts, V)).
Proof.
  intros [|a rest Ha _]; [now destruct fuel|].
  assert (getopt.is_option_token a = false) as Hno.
  { unfold getopt.is_option_token.
    destruct (Str.startswith "-" a); [|reflexivity].
    now rewrite (Ha eq_refl). }
  destruct fuel; cbn [getopt.loop]; now rewrite Hno.
Qed.

Lemma getopt_loop_long (fuel : nat) (opts : getopt.tokens) (content : string)
      (rest : list string) (shortopts : string) (longopts : list string) :
  content <> EmptyString ->
  getopt.loop (S fuel) opts (("--" +:+ content) :: rest) shortopts longopts
  = match getopt.do_longs opts content longopts rest with
    | inl e => Some (inl e)
    | inr (opts', args') => getopt.loop fuel opts' args' shortopts longopts
    end.
Proof.
  intros Hne. rewrite !string_app_cons, string_app_nil_l.
  cbn [getopt.loop].
  assert (getopt.is_option_token (String "-" (String "-" content)) = true)
    as -> by reflexivity.
  assert (String.eqb (String "-" (String "-" content)) "--" = false) as ->.
  { apply String.eqb_neq. intros [= E]. contradiction. }
  assert (Str.startswith "--" (String "-" (String "-" content)) = true) as ->.
  { unfold Str.startswith. rewrite !prefix_cons. cbn. apply prefix_nil. }
  reflexivity.
Qed.

Lemma getopt_loop_short (fuel : nat) (opts : getopt.tokens) (c : ascii)
      (more : string) (rest : list string) (shortopts : string)
      (longopts : list string) :
  c <> "-"%char ->
  getopt.loop (S fuel) opts (String "-" (String c more) :: rest)
              shortopts longopts
  = match getopt.do_shorts opts (String c more) shortopts rest with
    | inl e => Some (inl e)
    | inr (opts', args') => getopt.loop fuel opts' args' shortopts longopts
    end.
Proof.
  intros Hne. cbn [getopt.loop].
  assert (getopt.is_option_token (String "-" (String c more)) = true)
    as -> by reflexivity.
  assert (String.eqb (String "-" (String c more)) "--" = false) as ->.
  { apply String.eqb_neq. intros [= E]. contradiction. }
  assert (Str.startswith "--" (String "-" (String c more)) = false) as ->.
  { unfold Str.startswith. rewrite !prefix_cons.
    assert (Ascii.eqb "-" c = false) as ->
      by (apply Ascii.eqb_neq; congruence).
    reflexivity. }
  reflexivity.
Qed.

Lemma tokenize_unfold {R : Type} (cls : CommandBase.Class R)
      (a : string) (rest : list string) :
  CommandBase.tokenize cls (a :: rest)
  = match getopt.loop (S (length rest)) [] (a :: rest)
            (CommandBase.shortopts (CommandBase.declared cls))
            (CommandBase.longopts (CommandBase.declared cls)) with
    | Some r => r
    | None => inr ([], a :: rest)
    end.
Proof. reflexivity. Qed.

(** X17. An argument [--name] whose name is not the beginning of any
    declared long name is rejected: the constructor records the error
    "option --name not recognized" and parses nothing after it. *)
Theorem unknown_long_option_rejected {R : Type} (cls : CommandBase.Class R)
        (name : string) (rest : list string) :
  name <> EmptyString ->
  occurs "=" name = false ->
  (forall flag, flag ∈ map fst (CommandBase.optionList cls) ->
                Str.startswith name flag = false) ->
  exists cmd,
    CommandBase.__init__ cls (("--" +:+ name) :: rest) = Return cmd
    /\ CommandBase.error cmd
       = Some (mkGetoptError ("option --" +:+ name +:+ " not recognized") name)
    /\ CommandBase.args cmd = [].
Proof.
  intros Hne Hno Hunknown.
  assert (CommandBase.tokenize cls (("--" +:+ name) :: rest)
          = inl (mkGetoptError ("option --" +:+ name +:+ " not recognized") name))
    as Htok.
  { rewrite tokenize_unfold, getopt_loop_long by exact Hne.
    unfold getopt.do_longs. rewrite (split_at_absent "=" name Hno).
    unfold getopt.long_has_args.
    destruct (List.filter (Str.startswith name)
                (CommandBase.longopts (CommandBase.declared cls)))
      as [|spec others] eqn:E; [reflexivity|].
    exfalso.
    assert (In spec (List.filter (Str.startswith name)
                       (CommandBase.longopts (CommandBase.declared cls))))
      as Hspec by (rewrite E; now left).
    apply filter_In in Hspec as [Hspec Hstart].
    apply longopts_inv in Hspec as (flag & val & Hmem & ->).
    assert (Str.startswith name flag = false) as Hflag.
    { apply Hunknown. apply od_make_keys. apply list_elem_of_fmap.
      now exists (flag, val). }
    unfold Str.startswith in *.
    destruct (takes_arg val); [rewrite prefix_before_sep in Hstart by exact Hno|];
      congruence. }
  eexists. split; [exact (init_failure cls _ _ Htok)|]. split; reflexivity.
Qed.

Lemma unknown_long_option_rejected_witness :
  exists cmd,
    CommandBase.__init__ Examples.scenario ["--nope"; "-h"] = Return cmd
    /\ CommandBase.error cmd
       = Some (mkGetoptError "option --nope not recognized" "nope").
Proof.
  destruct (unknown_long_option_rejected Examples.scenario "nope" ["-h"])
    as (cmd & Hinit & Herr & _).
  - discriminate.
  - reflexivity.
  - intros flag Hflag. cbn in Hflag.
    apply elem_of_cons in Hflag as [->|Hflag]; [reflexivity|].
    apply elem_of_cons in Hflag as [->|Hflag]; [reflexivity|].
    now apply elem_of_nil in Hflag.
  - exists cmd. split; [exact Hinit | exact Herr].
Defined.

(** X18. A declared value-taking long option given as the last argument,
    with no value after it, is rejected with "option --name requires
    argument", and a declared boolean long option written with a value,
    [--name=value], is rejected with "option --name must not have an
    argument": a missing value is never filled in and a surplus one never
    dropped. *)
Theorem long_option_value_mismatch_rejected {R : Type}
        (cls : CommandBase.Class R) (flag : string) (val : OptVal) :
  (flag, val) ∈ OrderedDict.items (CommandBase.table cls) ->
  flag <> EmptyString ->
  occurs "=" flag = false ->
  (Spec.has_placeholder val = true ->
   exists cmd,
     CommandBase.__init__ cls ["--" +:+ flag] = Return cmd
     /\ CommandBase.error cmd
        = Some (mkGetoptError ("option --" +:+ flag +:+ " requires argument")
                              flag))
  /\ (Spec.has_placeholder val = false ->
      forall value rest,
      exists cmd,
        CommandBase.__init__ cls (("--" +:+ flag +:+ "=" +:+ value) :: rest)
        = Return cmd
        /\ CommandBase.error cmd
           = Some (mkGetoptError
                     ("option --" +:+ flag +:+ " must not have an argument")
                     flag)).
Proof.
  intros Hmem Hne Hno.
  pose proof (long_has_args_declared cls flag val Hmem Hno) as Hlong.
  rewrite <- takes_arg_has_placeholder in Hlong. split.
  - intros Hval. rewrite Hval in Hlong.
    assert (CommandBase.tokenize cls ["--" +:+ flag]
            = inl (mkGetoptError
                     ("option --" +:+ flag +:+ " requires argument") flag))
      as Htok.
    { rewrite tokenize_unfold, getopt_loop_long by exact Hne.
      unfold getopt.do_longs. rewrite (split_at_absent "=" flag Hno).
      now rewrite Hlong. }
    eexists. split; [exact (init_failure cls _ _ Htok)|]. reflexivity.
  - intros Hval value rest. rewrite Hval in Hlong.
    assert (CommandBase.tokenize cls (("--" +:+ flag +:+ "=" +:+ value) :: rest)
            = inl (mkGetoptError
                     ("option --" +:+ flag +:+ " must not have an argument")
                     flag))
      as Htok.
    { rewrite tokenize_unfold, getopt_loop_long.
      - unfold getopt.do_longs.
        rewrite string_app_cons, string_app_nil_l.
        rewrite (split_at_first "=" flag value Hno).
        now rewrite Hlong.
      - destruct flag; discriminate. }
    eexists. split; [exact (init_failure cls _ _ Htok)|]. reflexivity.
Qed.

Lemma long_option_value_mismatch_rejected_witness :
  (exists cmd,
      CommandBase.__init__ Examples.scenario ["--file"] = Return cmd
      /\ CommandBase.error cmd
         = Some (mkGetoptError "option --file requires argument" "file"))
  /\ (exists cmd,
         CommandBase.__init__ Examples.scenario ["--help=yes"; "x"] = Return cmd
         /\ CommandBase.error cmd
            = Some (mkGetoptError "option --help must not have an argument"
                                  "help")).
Proof.
  split.
  - destruct (long_option_value_mismatch_rejected Examples.scenario
                "file" Examples.file_opt) as [Hmissing _].
    + cbn. set_solver.
    + discriminate.
    + reflexivity.
    + apply Hmissing. reflexivity.
  - destruct (long_option_value_mismatch_rejected Examples.scenario
                "help" Examples.help_opt) as [_ Hsurplus].
    + cbn. set_solver.
    + discriminate.
    + reflexivity.
    + apply (Hsurplus eq_refl "yes" ["x"]).
Defined.

(** ** The spellings of a value-taking option *)

Lemma occurs_app (c : ascii) (a b : string) :
  occurs c (a +:+ b) = occurs c a || occurs c b.
Proof.
  induction a as [|x a IH]; [reflexivity|].
  rewrite string_app_cons. cbn [occurs]. now rewrite IH, orb_assoc.
Qed.

Lemma short_has_arg_skip (c : ascii) (s1 s2 : string) :
  occurs c s1 = false ->
  getopt.short_has_arg c (s1 +:+ s2) = getopt.short_has_arg c s2.
Proof.
  induction s1 as [|a s1 IH]; intros H; [reflexivity|].
  cbn [occurs] in H. apply orb_false_elim in H as [Ha H].
  rewrite string_app_cons. cbn [getopt.short_has_arg].
  rewrite Ascii.eqb_sym, Ha. cbn [andb]. now apply IH.
Qed.

Lemma join_app (l1 l2 : list string) : join (l1 ++ l2) = join l1 +:+ join l2.
Proof.
  induction l1 as [|x l1 IH]; [reflexivity|].
  cbn [app join fold_right]. fold (join (l1 ++ l2)). fold (join l1).
  now rewrite IH, string_app_assoc.
Qed.

Lemma shortopts_declared {R : Type} (cls : CommandBase.Class R) :
  CommandBase.shortopts (CommandBase.declared cls)
  = join (map shortspec (OrderedDict.items (CommandBase.table cls))).
Proof.
  unfold CommandBase.declared, CommandBase.declare.
  destruct (declare_fold
              (CommandBase.compute_padding
                 (OrderedDict.items (CommandBase.table cls)))
              (OrderedDict.items (CommandBase.table cls))
              {| CommandBase.longopts := []; CommandBase.shortopts := EmptyString;
                 CommandBase.decl_flags := ∅; CommandBase.opthelp := EmptyString |})
    as (_ & Hs & _).
  rewrite Hs. apply string_app_nil_l.
Qed.

(** The tokenizer takes [-c] to need a value when [c] is the short
    letter of one declared option only, and that option takes a value. *)
Lemma short_has_arg_declared {R : Type} (cls : CommandBase.Class R)
      (flag : string) (val : OptVal) (c : ascii) :
  (flag, val) ∈ OrderedDict.items (CommandBase.table cls) ->
  takes_arg val = true ->
  short val = String c EmptyString ->
  c <> ":"%char ->
  (forall flag' val',
      (flag', val') ∈ OrderedDict.items (CommandBase.table cls) ->
      flag' <> flag -> occurs c (short val') = false) ->
  getopt.short_has_arg c (CommandBase.shortopts (CommandBase.declared cls))
  = inr true.
Proof.
  intros Hmem Htakes Hshort Hcolon Hothers.
  rewrite shortopts_declared.
  pose proof (od_make_NoDup (CommandBase.optionList cls)) as Hnd.
  fold (CommandBase.table cls) in Hnd. unfold OrderedDict.keys in Hnd.
  unfold OrderedDict.items in *.
  induction (CommandBase.table cls) as [|[k v] d IH];
    [now apply elem_of_nil in Hmem|].
  cbn [map fst] in Hnd. apply NoDup_cons in Hnd as [Hfresh Hnd].
  cbn [map join fold_right]. fold (join (map shortspec d)).
  apply elem_of_cons in Hmem as [E|Hmem].
  - simplify_eq. unfold shortspec. cbn [fst snd].
    rewrite Hshort, Htakes. cbn [Str.truthy].
    rewrite !string_app_cons, !string_app_nil_l.
    cbn [getopt.short_has_arg]. rewrite Ascii.eqb_refl.
    assert (Ascii.eqb c ":" = false) as -> by now apply Ascii.eqb_neq.
    cbn [andb negb]. unfold Str.startswith.
    rewrite !string_app_cons, !string_app_nil_l, prefix_cons, prefix_nil.
    reflexivity.
  - assert (k <> flag) as Hk.
    { intros ->. apply Hfresh. apply list_elem_of_fmap. now exists (flag, val). }
    assert (occurs c (shortspec (k, v)) = false) as Hskip.
    { unfold shortspec. cbn [fst snd].
      pose proof (Hothers k v ltac:(now left) Hk) as Hv.
      destruct (Str.truthy (short v)); [|reflexivity].
      destruct (takes_arg v); [|exact Hv].
      rewrite occurs_app, Hv. cbn [occurs orb].
      assert (Ascii.eqb ":" c = false) as ->
        by (apply Ascii.eqb_neq; congruence).
      reflexivity. }
    rewrite (short_has_arg_skip c _ _ Hskip).
    apply IH; [exact Hmem| |exact Hnd].
    intros flag' val' Hmem' Hne. apply (Hothers flag' val'); [now right|exact Hne].
Qed.

Lemma init_single_token {R : Type} (cls : CommandBase.Class R)
      (argv : list string) (tok : string * string) (V : list string)
      (flag : string) (val : OptVal) :
  CommandBase.tokenize cls argv = inr ([tok], V) ->
  (flag, val) ∈ OrderedDict.items (CommandBase.table cls) ->
  takes_arg val = true ->
  matches (fst tok) flag val = true ->
  parses_to cls argv flag (snd tok) V.
Proof.
  intros Htok Hmem Htakes Hmatch.
  destruct (init_success cls argv [tok] V Htok) as (d & Hinit & _ & Hin).
  eexists. split; [exact Hinit|].
  cbn [CommandBase.error CommandBase.flags CommandBase.args entries].
  repeat split. rewrite (Hin flag val Hmem).
  unfold entry_after. cbn [fold_left]. rewrite Hmatch.
  unfold CommandBase.matched_value. now rewrite Htakes.
Qed.

Lemma matches_long (flag : string) (val : OptVal) :
  matches ("--" +:+ flag) flag val = true.
Proof.
  unfold matches. rewrite !string_app_cons, string_app_nil_l.
  cbn [String.get Str.drop]. change (Ascii.eqb "-" "-") with true.
  cbn [negb]. apply String.eqb_refl.
Qed.

Lemma matches_short (c : ascii) (flag : string) (val : OptVal) :
  c <> "-"%char -> short val = String c EmptyString ->
  matches (String "-" (String c EmptyString)) flag val = true.
Proof.
  intros Hc Hs. unfold matches. cbn [String.get].
  assert (Ascii.eqb c "-" = false) as -> by now apply Ascii.eqb_neq.
  cbn [negb]. rewrite Hs. apply String.eqb_refl.
Qed.

(** X19. The spellings of a value-taking option agree. For a declared
    option that takes a value, [--name=value] and [--name value] both
    store the string [value] for it and leave the arguments after them as
    the positional arguments; when the option has a one-character short
    letter that no other declared option uses, [-x value] and, for a
    non-empty value, [-xvalue] do the same. *)
Theorem value_spellings_agree {R : Type} (cls : CommandBase.Class R)
        (flag : string) (val : OptVal) (value : string) (V : list string) :
  (flag, val) ∈ OrderedDict.items (CommandBase.table cls) ->
  Spec.has_placeholder val = true ->
  flag <> EmptyString ->
  occurs "=" flag = false ->
  Spec.no_option_tokens V ->
  parses_to cls (("--" +:+ flag +:+ "=" +:+ value) :: V) flag value V
  /\ parses_to cls (("--" +:+ flag) :: value :: V) flag value V
  /\ (forall c,
         short val = String c EmptyString ->
         c <> "-"%char -> c <> ":"%char ->
         (forall flag' val',
             (flag', val') ∈ OrderedDict.items (CommandBase.table cls) ->
             flag' <> flag -> occurs c (short val') = false) ->
         parses_to cls (("-" +:+ String c EmptyString) :: value :: V)
                   flag value V
         /\ (value <> EmptyString ->
             parses_to cls (("-" +:+ String c value) :: V) flag value V)).
Proof.
  intros Hmem Hval Hne Hno HV.
  assert (takes_arg val = true) as Htakes
    by now rewrite <- takes_arg_has_placeholder.
  pose proof (long_has_args_declared cls flag val Hmem Hno) as Hlong.
  rewrite Htakes in Hlong.
  split; [|split].
  - apply (init_single_token cls _ ("--" +:+ flag, value) V flag val);
      [|exact Hmem|exact Htakes|apply matches_long].
    rewrite tokenize_unfold, getopt_loop_long.
    + unfold getopt.do_longs. rewrite string_app_cons, string_app_nil_l.
      rewrite (split_at_first "=" flag value Hno), Hlong.
      cbn [app]. now rewrite getopt_loop_stop.
    + destruct flag; discriminate.
  - apply (init_single_token cls _ ("--" +:+ flag, value) V flag val);
      [|exact Hmem|exact Htakes|apply matches_long].
    rewrite tokenize_unfold. cbn [length].
    rewrite getopt_loop_long by exact Hne.
    unfold getopt.do_longs. rewrite (split_at_absent "=" flag Hno), Hlong.
    cbn [app]. now rewrite getopt_loop_stop.
  - intros c Hshort Hdash Hcolon Hothers.
    pose proof (short_has_arg_declared cls flag val c Hmem Htakes Hshort
                  Hcolon Hothers) as Hsha.
    rewrite !string_app_cons, !string_app_nil_l. split.
    + apply (init_single_token cls _ (String "-" (String c EmptyString), value)
               V flag val);
        [|exact Hmem|exact Htakes|now apply matches_short].
      rewrite tokenize_unfold. cbn [length].
      rewrite getopt_loop_short by exact Hdash.
      cbn [getopt.do_shorts]. rewrite Hsha.
      rewrite string_app_cons, string_app_nil_l. cbn [app].
      now rewrite getopt_loop_stop.
    + intros Hvalue.
      apply (init_single_token cls _ (String "-" (String c EmptyString), value)
               V flag val);
        [|exact Hmem|exact Htakes|now apply matches_short].
      rewrite tokenize_unfold.
      rewrite getopt_loop_short by exact Hdash.
      cbn [getopt.do_shorts]. rewrite Hsha.
      destruct value as [|v0 value']; [contradiction|].
      rewrite string_app_cons, string_app_nil_l. cbn [app].
      now rewrite getopt_loop_stop.
Qed.

Lemma value_spellings_agree_witness :
  parses_to Examples.scenario ["--file=out.txt"; "extra"] "file" "out.txt"
            ["extra"]
  /\ parses_to Examples.scenario ["--file"; "out.txt"; "extra"] "file" "out.txt"
               ["extra"]
  /\ parses_to Examples.scenario ["-f"; "out.txt"; "extra"] "file" "out.txt"
               ["extra"].
Proof.
  destruct (value_spellings_agree Examples.scenario "file" Examples.file_opt
              "out.txt" ["extra"]) as (Heq & Hsep & Hshort).
  - cbn. set_solver.
  - reflexivity.
  - discriminate.
  - reflexivity.
  - apply List.Forall_cons; [intros H; discriminate H | apply List.Forall_nil].
  - split; [exact Heq|]. split; [exact Hsep|].
    destruct (Hshort "f"%char) as [Hf _];
      [reflexivity|discriminate|discriminate| |exact Hf].
    intros flag' val' Hmem Hne. cbn in Hmem.
    apply elem_of_cons in Hmem as [E|Hmem]; [now simplify_eq|].
    apply elem_of_cons in Hmem as [E|Hmem]; [simplify_eq; congruence|].
    now apply elem_of_nil in Hmem.
Defined.

(** ** Short options the tokenizer rejects *)

Lemma short_has_arg_unknown (c : ascii) (s : string) :
  c = ":"%char \/ occurs c s = false ->
  getopt.short_has_arg c s
  = inl (mkGetoptError
           ("option -" +:+ String c EmptyString +:+ " not recognized")
           (String c EmptyString)).
Proof.
  intros H. induction s as [|a s IH]; [reflexivity|].
  cbn [getopt.short_has_arg].
  assert (Ascii.eqb c a && negb (Ascii.eqb a ":") = false) as ->.
  { destruct H as [->|H].
    - rewrite Ascii.eqb_sym. now destruct (Ascii.eqb a ":").
    - cbn [occurs] in H. apply orb_false_elim in H as [Ha _].
      now rewrite Ascii.eqb_sym, Ha. }
  apply IH. destruct H as [H|H]; [now left|right].
  cbn [occurs] in H. now apply orb_false_elim in H as [_ H].
Qed.

Lemma shortopts_without (c : ascii) (items : list (string * OptVal)) :
  c <> ":"%char ->
  Forall (fun item => occurs c (short (snd item)) = false) items ->
  occurs c (join (map shortspec items)) = false.
Proof.
  intros Hc. induction 1 as [|[flag val] items Hitem _ IH]; [reflexivity|].
  cbn [map join fold_right]. fold (join (map shortspec items)).
  rewrite occurs_app, IH, orb_false_r.
  unfold shortspec. cbn [fst snd] in *.
  destruct (Str.truthy (short val)); [|reflexivity].
  destruct (takes_arg val); [|exact Hitem].
  rewrite occurs_app, Hitem. cbn [occurs orb].
  assert (Ascii.eqb ":" c = false) as ->
    by (apply Ascii.eqb_neq; congruence).
  reflexivity.
Qed.

(** X20. A short option whose character is not in the short letters of
    any declared option is rejected with "option -c not recognized",
    whatever follows it in the same argument or after it; the colon is
    rejected in every table, even where a declaration names it as its
    short letter. *)
Theorem unknown_short_option_rejected {R : Type} (cls : CommandBase.Class R)
        (c : ascii) (more : string) (rest : list string) :
  c <> "-"%char ->
  c = ":"%char
  \/ Forall (fun item => occurs c (short (snd item)) = false)
            (OrderedDict.items (CommandBase.table cls)) ->
  exists cmd,
    CommandBase.__init__ cls (String "-" (String c more) :: rest) = Return cmd
    /\ CommandBase.error cmd
       = Some (mkGetoptError
                 ("option -" +:+ String c EmptyString +:+ " not recognized")
                 (String c EmptyString))
    /\ CommandBase.args cmd = [].
Proof.
  intros Hdash Hc.
  assert (getopt.short_has_arg c
            (CommandBase.shortopts (CommandBase.declared cls))
          = inl (mkGetoptError
                   ("option -" +:+ String c EmptyString +:+ " not recognized")
                   (String c EmptyString))) as Hsha.
  { apply short_has_arg_unknown.
    destruct (ascii_dec c ":") as [->|Hcolon]; [now left|right].
    destruct Hc as [Hc|Hc]; [contradiction|].
    rewrite shortopts_declared. now apply shortopts_without. }
  assert (CommandBase.tokenize cls (String "-" (String c more) :: rest)
          = inl (mkGetoptError
                   ("option -" +:+ String c EmptyString +:+ " not recognized")
                   (String c EmptyString))) as Htok.
  { rewrite tokenize_unfold, getopt_loop_short by exact Hdash.
    cbn [getopt.do_shorts]. now rewrite Hsha. }
  eexists. split; [exact (init_failure cls _ _ Htok)|]. split; reflexivity.
Qed.

Lemma unknown_short_option_rejected_witness :
  exists cmd,
    CommandBase.__init__ Examples.scenario ["-zh"; "x"] = Return cmd
    /\ CommandBase.error cmd
       = Some (mkGetoptError "option -z not recognized" "z").
Proof.
  destruct (unknown_short_option_rejected Examples.scenario "z"%char "h" ["x"])
    as (cmd & Hinit & Herr & _).
  - discriminate.
  - right. repeat (apply List.Forall_cons; [reflexivity|]). apply List.Forall_nil.
  - exists cmd. split; [exact Hinit | exact Herr].
Defined.

(** X21. A value-taking short option given last, with nothing attached
    and no argument after it, is rejected with "option -c requires
    argument" (for a short letter no other declared option uses). *)
Theorem short_option_missing_value_rejected {R : Type}
        (cls : CommandBase.Class R) (flag : string) (val : OptVal) (c : ascii) :
  (flag, val) ∈ OrderedDict.items (CommandBase.table cls) ->
  Spec.has_placeholder val = true ->
  short val = String c EmptyString ->
  c <> "-"%char -> c <> ":"%char ->
  (forall flag' val',
      (flag', val') ∈ OrderedDict.items (CommandBase.table cls) ->
      flag' <> flag -> occurs c (short val') = false) ->
  exists cmd,
    CommandBase.__init__ cls [String "-" (String c EmptyString)] = Return cmd
    /\ CommandBase.error cmd
       = Some (mkGetoptError
                 ("option -" +:+ String c EmptyString +:+ " requires argument")
                 (String c EmptyString))
    /\ (forall name, name ∈ map fst (CommandBase.optionList cls) ->
          entries (CommandBase.flags cmd) !! name = Some Spec.unset).
Proof.
  intros Hmem Hval Hshort Hdash Hcolon Hothers.
  assert (takes_arg val = true) as Htakes
    by now rewrite <- takes_arg_has_placeholder.
  pose proof (short_has_arg_declared cls flag val c Hmem Htakes Hshort
                Hcolon Hothers) as Hsha.
  assert (CommandBase.tokenize cls [String "-" (String c EmptyString)]
          = inl (mkGetoptError
                   ("option -" +:+ String c EmptyString +:+ " requires argument")
                   (String c EmptyString))) as Htok.
  { rewrite tokenize_unfold, getopt_loop_short by exact Hdash.
    cbn [getopt.do_shorts]. now rewrite Hsha. }
  eexists. split; [exact (init_failure cls _ _ Htok)|]. split.
  - reflexivity.
  - intros name Hname. cbn [CommandBase.flags entries].
    rewrite declared_flags_lookup.
    rewrite decide_True; [reflexivity|]. now apply od_make_keys.
Qed.

Lemma short_option_missing_value_rejected_witness :
  exists cmd,
    CommandBase.__init__ Examples.scenario ["-f"] = Return cmd
    /\ CommandBase.error cmd
       = Some (mkGetoptError "option -f requires argument" "f").
Proof.
  destruct (short_option_missing_value_rejected Examples.scenario
              "file" Examples.file_opt "f"%char)
    as (cmd & Hinit & Herr & _).
  - cbn. set_solver.
  - reflexivity.
  - reflexivity.
  - discriminate.
  - discriminate.
  - intros flag' val' Hmem Hne. cbn in Hmem.
    apply elem_of_cons in Hmem as [E|Hmem]; [now simplify_eq|].
    apply elem_of_cons in Hmem as [E|Hmem]; [simplify_eq; congruence|].
    now apply elem_of_nil in Hmem.
  - exists cmd. split; [exact Hinit | exact Herr].
Defined.

(** ** The layout of the usage text *)

Lemma table_empty_iff {R : Type} (cls : CommandBase.Class R) :
  CommandBase.table cls = [] <-> CommandBase.optionList cls = [].
Proof.
  split.
  - intros Ht. destruct (CommandBase.optionList cls) as [|[k v] pairs] eqn:E;
      [reflexivity|]. exfalso.
    assert (k ∈ OrderedDict.keys (CommandBase.table cls)) as Hk.
    { unfold CommandBase.table. apply od_make_keys. rewrite E. now left. }
    rewrite Ht in Hk. now apply elem_of_nil in Hk.
  - intros E. unfold CommandBase.table. now rewrite E.
Qed.

(** X22. The usage text of every constructed instance is, in this order:
    the synopsis; a blank line and the description, if there is one; a
    blank line, the header [Options:] and one rendered line per declared
    option in table order, if any option is declared; a newline and the
    extra help, if there is some. It is built before the arguments are
    parsed and is the same whether parsing succeeds or fails. *)
Theorem usage_text_layout {R : Type} (cls : CommandBase.Class R)
        (argv : list string) (cmd : CommandBase.t R) :
  CommandBase.__init__ cls argv = Return cmd ->
  let items := OrderedDict.items (CommandBase.table cls) in
  CommandBase.usage cmd
  = CommandBase.usagestr cls
    +:+ (if String.eqb (CommandBase.description cls) EmptyString
         then EmptyString
         else nl +:+ nl +:+ CommandBase.description cls)
    +:+ (match CommandBase.optionList cls with
         | [] => EmptyString
         | _ :: _ =>
             nl +:+ nl +:+ "Options:" +:+ nl
             +:+ join (map (fun item =>
                              Spec.rendered_line (Spec.padding items)
                                                 (fst item) (snd item))
                           items)
         end)
    +:+ (if String.eqb (CommandBase.usageTextExtra cls) EmptyString
         then EmptyString
         else nl +:+ CommandBase.usageTextExtra cls).
Proof.
  intros Hinit. cbv zeta.
  assert (CommandBase.usage cmd
          = CommandBase.build_usage cls (CommandBase.table cls)
              (CommandBase.opthelp (CommandBase.declared cls))) as ->.
  { destruct (CommandBase.tokenize cls argv) as [err|[opts rest]] eqn:H.
    - rewrite (init_failure cls argv err H) in Hinit. now injection Hinit as <-.
    - destruct (init_success cls argv opts rest H) as (d & Hd & _).
      rewrite Hd in Hinit. now injection Hinit as <-. }
  assert (CommandBase.opthelp (CommandBase.declared cls)
          = join (map (fun item =>
                         Spec.rendered_line
                           (Spec.padding (OrderedDict.items (CommandBase.table cls)))
                           (fst item) (snd item))
                      (OrderedDict.items (CommandBase.table cls)))) as ->.
  { unfold CommandBase.declared. rewrite opthelp_lines, compute_padding_spec.
    f_equal. apply map_ext. intros [flag val]. apply helpline_rendered. }
  unfold CommandBase.build_usage.
  pose proof (table_empty_iff cls) as Hempty.
  destruct (CommandBase.description cls) as [|d0 d1];
    destruct (CommandBase.usageTextExtra cls) as [|e0 e1];
    cbn [Str.truthy String.eqb];
    destruct (CommandBase.table cls) as [|item items] eqn:Et;
    destruct (CommandBase.optionList cls) as [|pair pairs] eqn:Eo;
    try (destruct Hempty as [H1 H2];
         first [now specialize (H1 eq_refl) | now specialize (H2 eq_refl)]);
    rewrite ?string_app_assoc, ?string_app_nil_l, ?string_app_nil_r;
    reflexivity.
Qed.

Lemma usage_text_layout_witness :
  exists cmd,
    CommandBase.__init__ Examples.scenario ["--nope"] = Return cmd
    /\ CommandBase.usage cmd
       = "usage: command [options]" +:+ nl +:+ nl +:+ "Options:" +:+ nl
         +:+ "-h, --help                show help" +:+ nl
         +:+ "-f <path>, --file=<path>  use file" +:+ nl.
Proof.
  pose proof (init_failure Examples.scenario ["--nope"]
                (mkGetoptError "option --nope not recognized" "nope") eq_refl)
    as Hinit.
  eexists. split; [exact Hinit|].
  rewrite (usage_text_layout Examples.scenario ["--nope"] _ Hinit).
  reflexivity.
Defined.

(** ** Boolean options, from the command line to the flag map *)









